(** * The advertise microservice (src/advertise/src/index.js)

    A shallow embedding of the upload / replication pipeline of the service:
    the three HTTP handlers, the RabbitMQ consumer and the start-up wiring,
    over explicit models of the collaborators the handlers call
    (Node's [path], the BSON [ObjectId] constructor, a MongoDB collection and
    an AMQP 0-9-1 broker as seen through amqplib). *)

From Stdlib Require Import Ascii String ZArith.
From stdpp Require Import base tactics option list gmap strings pretty.

Local Open Scope Z_scope.

(** ** JavaScript strings

    Strings are sequences of code units; positions are [Z] because the
    library code below uses [-1] as its "not seen yet" marker. *)
Module Js.

Definition len (s : string) : Z := Z.of_nat (String.length s).

(** [String.prototype.slice]: negative positions count from the end, both
    positions are clamped to the string. *)
Definition clamp (n k : Z) : Z :=
  if k <? 0 then Z.max (n + k) 0 else Z.min k n.

Definition slice (s : string) (a b : Z) : string :=
  let from := clamp (len s) a in
  let to := clamp (len s) b in
  String.substring (Z.to_nat from) (Z.to_nat (to - from)) s.

Definition chars (s : string) : list ascii := String.list_ascii_of_string s.

(** [charCodeAt i], for [0 <= i]; out of range it is [NaN], which equals
    no code unit. *)
Definition charCodeAt (s : string) (i : Z) : option ascii :=
  String.get (Z.to_nat i) s.

Definition CHAR_FORWARD_SLASH : ascii := "/"%char.
Definition CHAR_DOT : ascii := "."%char.

End Js.

(** ** Node's [path.extname] and [path.basename] (POSIX flavour)

    Both scan the path from its last code unit down to index 0.  The loops
    are written as recursion over the reversed code units: the head of the
    list is the code unit at index [length rest]. *)
Module Path.
Import Js.

Record ext_state := ExtState {
  startDot : Z;
  startPart : Z;
  end_ : Z;
  matchedSlash : bool;
  preDotState : Z
}.

Definition ext_init : ext_state :=
  ExtState (-1) 0 (-1) true 0.

(** One iteration of the body of the loop of [extname] at index [i];
    [inl] is [break], [inr] goes on to [i - 1]. *)
Definition ext_step (i : Z) (code : ascii) (st : ext_state)
  : ext_state + ext_state :=
  if Ascii.eqb code CHAR_FORWARD_SLASH then
    if negb (matchedSlash st)
    then inl (ExtState (startDot st) (i + 1) (end_ st)
                       (matchedSlash st) (preDotState st))
    else inr st
  else
    let st1 :=
      if end_ st =? -1
      then ExtState (startDot st) (startPart st) (i + 1) false (preDotState st)
      else st in
    if Ascii.eqb code CHAR_DOT then
      if startDot st1 =? -1
      then inr (ExtState i (startPart st1) (end_ st1)
                         (matchedSlash st1) (preDotState st1))
      else if negb (preDotState st1 =? 1)
      then inr (ExtState (startDot st1) (startPart st1) (end_ st1)
                         (matchedSlash st1) 1)
      else inr st1
    else if negb (startDot st1 =? -1)
    then inr (ExtState (startDot st1) (startPart st1) (end_ st1)
                       (matchedSlash st1) (-1))
    else inr st1.

Fixpoint ext_loop (rev_path : list ascii) (st : ext_state) : ext_state :=
  match rev_path with
  | [] => st
  | code :: rest =>
      match ext_step (Z.of_nat (length rest)) code st with
      | inl st' => st'
      | inr st' => ext_loop rest st'
      end
  end.

Definition extname (path : string) : string :=
  let st := ext_loop (rev (chars path)) ext_init in
  if (startDot st =? -1) || (end_ st =? -1) || (preDotState st =? 0)
     || ((preDotState st =? 1)
         && (startDot st =? end_ st - 1)
         && (startDot st =? startPart st + 1))
  then ""%string
  else slice path (startDot st) (end_ st).

Record base_state := BaseState {
  b_start : Z;
  b_end : Z;
  b_matchedSlash : bool;
  extIdx : Z;
  firstNonSlashEnd : Z
}.

(** Body of the loop of [basename] when a suffix was given. *)
Definition base_step_suffix (suffix : string) (i : Z) (code : ascii)
    (st : base_state) : base_state + base_state :=
  if Ascii.eqb code CHAR_FORWARD_SLASH then
    if negb (b_matchedSlash st)
    then inl (BaseState (i + 1) (b_end st) (b_matchedSlash st)
                        (extIdx st) (firstNonSlashEnd st))
    else inr st
  else
    let st1 :=
      if firstNonSlashEnd st =? -1
      then BaseState (b_start st) (b_end st) false (extIdx st) (i + 1)
      else st in
    if 0 <=? extIdx st1 then
      if bool_decide (Some code = charCodeAt suffix (extIdx st1)) then
        let extIdx' := extIdx st1 - 1 in
        if extIdx' =? -1
        then inr (BaseState (b_start st1) i (b_matchedSlash st1)
                            extIdx' (firstNonSlashEnd st1))
        else inr (BaseState (b_start st1) (b_end st1) (b_matchedSlash st1)
                            extIdx' (firstNonSlashEnd st1))
      else
        inr (BaseState (b_start st1) (firstNonSlashEnd st1)
                       (b_matchedSlash st1) (-1) (firstNonSlashEnd st1))
    else inr st1.

Fixpoint base_loop_suffix (suffix : string) (rev_path : list ascii)
    (st : base_state) : base_state :=
  match rev_path with
  | [] => st
  | code :: rest =>
      match base_step_suffix suffix (Z.of_nat (length rest)) code st with
      | inl st' => st'
      | inr st' => base_loop_suffix suffix rest st'
      end
  end.

(** Body of the loop of [basename] without a (usable) suffix; only
    [b_start], [b_end] and [b_matchedSlash] are used. *)
Definition base_step_plain (i : Z) (code : ascii) (st : base_state)
  : base_state + base_state :=
  if Ascii.eqb code CHAR_FORWARD_SLASH then
    if negb (b_matchedSlash st)
    then inl (BaseState (i + 1) (b_end st) (b_matchedSlash st)
                        (extIdx st) (firstNonSlashEnd st))
    else inr st
  else if b_end st =? -1
  then inr (BaseState (b_start st) (i + 1) false
                      (extIdx st) (firstNonSlashEnd st))
  else inr st.

Fixpoint base_loop_plain (rev_path : list ascii) (st : base_state)
  : base_state :=
  match rev_path with
  | [] => st
  | code :: rest =>
      match base_step_plain (Z.of_nat (length rest)) code st with
      | inl st' => st'
      | inr st' => base_loop_plain rest st'
      end
  end.

(** [path.basename(path, suffix)] with both arguments strings. *)
Definition basename (path suffix : string) : string :=
  if (0 <? len suffix) && (len suffix <=? len path) then
    if String.eqb suffix path then ""%string
    else
      let st := base_loop_suffix suffix (rev (chars path))
                  (BaseState 0 (-1) true (len suffix - 1) (-1)) in
      let e :=
        if b_start st =? b_end st then firstNonSlashEnd st
        else if b_end st =? -1 then len path
        else b_end st in
      slice path (b_start st) e
  else
    let st := base_loop_plain (rev (chars path))
                (BaseState 0 (-1) true (-1) (-1)) in
    if b_end st =? -1 then ""%string
    else slice path (b_start st) (b_end st).

(** *** What the loop of [extname] has established

    [plain] code units are the ones that are neither a dot nor a slash.
    [ext_inv l n st] describes the state [st] once the loop has handled the
    code units of [l] from index [n] on: it has seen only trailing slashes;
    or a run [r] of plain code units that ends the last component; or that
    run and the dot in front of it, at index [length a]. *)
Definition plain (c : ascii) : Prop :=
  c ≠ CHAR_DOT ∧ c ≠ CHAR_FORWARD_SLASH.

Definition slash (c : ascii) : Prop := c = CHAR_FORWARD_SLASH.

Inductive ext_inv (l : list ascii) (n : nat) (st : ext_state) : Prop :=
| ext_inv_slashes :
    startDot st = -1 → end_ st = -1 → matchedSlash st = true →
    preDotState st = 0 →
    Forall slash (drop n l) →
    ext_inv l n st
| ext_inv_tail (r t : list ascii) :
    startDot st = -1 → end_ st = Z.of_nat (n + length r) →
    matchedSlash st = false → preDotState st = 0 →
    drop n l = r ++ t → Forall plain r → Forall slash t →
    ext_inv l n st
| ext_inv_dot (a r t : list ascii) :
    l = a ++ CHAR_DOT :: r ++ t →
    startDot st = Z.of_nat (length a) →
    end_ st = Z.of_nat (length a + 1 + length r) →
    matchedSlash st = false →
    Forall plain r → Forall slash t →
    (n ≤ length a)%nat →
    (n = length a → preDotState st = 0) →
    ((n < length a)%nat →
     ∃ c, l !! n = Some c ∧ c ≠ CHAR_FORWARD_SLASH
          ∧ preDotState st = if Ascii.eqb c CHAR_DOT then 1 else -1) →
    ext_inv l n st.

(** *** The state of the loop of [basename] while the suffix matches

    For a path of [na] code units followed by the [ns] code units of the
    suffix: the state after the last [k] code units have been handled. *)
Definition match_state (na ns k : nat) : base_state :=
  BaseState 0
    (if (k =? ns)%nat then Z.of_nat na else -1)
    (k =? 0)%nat
    (Z.of_nat ns - Z.of_nat k - 1)
    (if (k =? 0)%nat then -1 else Z.of_nat (na + ns)).

End Path.


(** ** BSON object identifiers

    An [ObjectId] is its 12 bytes.  The constructor is the one of the
    driver generation that [useUnifiedTopology] belongs to: no argument (or
    [null], or a number) generates an identifier, a string is accepted when
    it has 12 code units (taken as the bytes) or is 24 hexadecimal digits,
    and everything else is rejected with an exception.  Later releases of
    the library reject the 12 code units as well; the results below use
    identifiers of 24 hexadecimal digits and strings that are neither. *)
Module Bson.

Definition ObjectId := string.

(** The JSON values a query parameter or a message field can hold.
    [JUndefined] is an absent property; [JOther] stands for booleans,
    arrays and objects. *)
Inductive JValue :=
| JUndefined
| JNull
| JNum (n : Z)
| JStr (s : string)
| JOther.

Definition is_hex (c : ascii) : bool :=
  let n := N_of_ascii c in
  ((48 <=? n) && (n <=? 57) || (65 <=? n) && (n <=? 70)
   || (97 <=? n) && (n <=? 102))%N.

Definition hex_val (c : ascii) : N :=
  let n := N_of_ascii c in
  (if n <=? 57 then n - 48 else if n <=? 70 then n - 55 else n - 87)%N.

Definition hex_digit (n : N) : ascii :=
  ascii_of_N (if n <? 10 then n + 48 else n + 87)%N.

(** [/^[0-9a-fA-F]{24}$/] *)
Definition checkForHexRegExp (s : string) : bool :=
  (String.length s =? 24)%nat && forallb is_hex (Js.chars s).

(** [Buffer.from(s, 'hex')] *)
Fixpoint fromHex (s : string) : string :=
  match s with
  | String a (String b rest) =>
      String (ascii_of_N (16 * hex_val a + hex_val b)) (fromHex rest)
  | _ => EmptyString
  end.

Fixpoint toHexString (id : ObjectId) : string :=
  match id with
  | EmptyString => EmptyString
  | String c rest =>
      let n := N_of_ascii c in
      String (hex_digit (n / 16)) (String (hex_digit (n mod 16))
             (toHexString rest))
  end.

Definition isValid (s : string) : bool :=
  (String.length s =? 12)%nat || checkForHexRegExp s.

(** [new ObjectId(v)]: [None] is the thrown exception; [generated] is the
    identifier the generator hands out when it is asked for one. *)
Definition new_ObjectId (generated : ObjectId) (v : JValue)
  : option ObjectId :=
  match v with
  | JUndefined | JNull | JNum _ => Some generated
  | JStr s =>
      if negb (isValid s) then None
      else if (String.length s =? 24)%nat then Some (fromHex s)
      else Some s
  | JOther => None
  end.

(** [JSON.stringify] of an identifier goes through its [toJSON]. *)
Definition toJSON (id : ObjectId) : JValue := JStr (toHexString id).

End Bson.

(** ** The [images] collection

    Documents in insertion order.  [_id] is optional only because the
    upload route hands the driver a document without one. *)
Module Mongo.
Import Bson.

Record Doc := MkDoc {
  _id : option ObjectId;
  imageUrl : JValue;
  uploadedAt : option N;
  url : JValue
}.

Inductive Failure :=
| DuplicateKey      (* E11000 on the unique index of [_id] *)
| NetworkError.     (* the server cannot be reached *)

Definition has_id (id : ObjectId) (d : Doc) : bool :=
  bool_decide (_id d = Some id).

(** [insertOne(doc)]: the driver gives [doc] an [_id] when it has none
    (it writes it into the caller's object), the server refuses a second
    document with an [_id] it already has.  The result is the caller's
    object as the driver left it, [insertedId], and the collection. *)
Definition insertOne (reachable : bool) (generated : ObjectId) (doc : Doc)
    (coll : list Doc) : Failure + (Doc * ObjectId * list Doc) :=
  let id := default generated (_id doc) in
  let doc' := MkDoc (Some id) (imageUrl doc) (uploadedAt doc) (url doc) in
  if negb reachable then inl NetworkError
  else if existsb (has_id id) coll then inl DuplicateKey
  else inr (doc', id, coll ++ [doc']).

(** [findOne({ _id: id })] *)
Definition findOne (reachable : bool) (id : ObjectId) (coll : list Doc)
  : Failure + option Doc :=
  if negb reachable then inl NetworkError
  else inr (List.find (has_id id) coll).

(** No document of the collection has this [_id]. *)
Definition absent (id : ObjectId) (coll : list Doc) : Prop :=
  ∀ doc, doc ∈ coll → _id doc ≠ Some id.

(** [find().toArray()] *)
Definition find_toArray (reachable : bool) (coll : list Doc)
  : Failure + list Doc :=
  if negb reachable then inl NetworkError else inr coll.

End Mongo.

(** ** The message broker, as amqplib shows it

    A message body is modelled by what [JSON.parse] makes of it. *)
Module Amqp.
Import Bson.

Inductive Content :=
| Garbage      (* not JSON: [JSON.parse] throws a SyntaxError *)
| JsonNull     (* parses to [null]: reading a property throws a TypeError *)
| JsonObj (imageId imageUrl url : JValue).

Record Message := MkMessage {
  deliveryTag : N;
  content : Content
}.

(** The two kinds of exchange the service meets; the default exchange
    (named by the empty string) is a direct exchange to which every queue
    is bound under its own name. *)
Inductive ExchangeType := Direct | Fanout.

Global Instance ExchangeType_eq_dec : EqDecision ExchangeType.
Proof. solve_decision. Defined.

Record Broker := MkBroker {
  exchanges : gmap string ExchangeType;
  queues : gmap string (list Content);      (* ready messages, oldest first *)
  bindings : list (string * string * string); (* queue, source, pattern *)
  consumers : list string;
  generated : N;                            (* server-named queues so far *)
  unacked : list Message;
  deliveries : N
}.

Definition empty_broker : Broker :=
  MkBroker ∅ ∅ [] [] 0 [] 0.

Definition bound (b : Broker) (exchange key : string) (fanout : bool)
    (q : string) : bool :=
  existsb (λ '(q', source, pattern),
             bool_decide (q' = q) && bool_decide (source = exchange)
             && (fanout || bool_decide (pattern = key)))
          (bindings b).

(** Does a message published to [exchange] with [key] reach queue [q]? *)
Definition routed (b : Broker) (exchange key q : string) : bool :=
  if bool_decide (exchange = ""%string) then bool_decide (q = key)
  else match exchanges b !! exchange with
       | Some Fanout => bound b exchange key true q
       | Some Direct => bound b exchange key false q
       | None => false
       end.

(** [publish(exchange, routingKey, content)]: every queue the message is
    routed to gets a copy; a message routed nowhere is dropped. *)
Definition publish (exchange key : string) (c : Content) (b : Broker)
  : Broker :=
  MkBroker (exchanges b)
    (map_imap (λ q ms, Some (if routed b exchange key q
                             then ms ++ [c] else ms)) (queues b))
    (bindings b) (consumers b) (generated b) (unacked b) (deliveries b).

(** [sendToQueue(queue, content)] is [publish("", queue, content)]. *)
Definition sendToQueue (queue : string) (c : Content) (b : Broker)
  : Broker :=
  publish "" queue c b.

(** [assertExchange(name, type)]: refused when the exchange exists with
    another type. *)
Definition assertExchange (name : string) (type : ExchangeType)
    (b : Broker) : option Broker :=
  match exchanges b !! name with
  | Some type' => if bool_decide (type' = type) then Some b else None
  | None =>
      Some (MkBroker (<[name := type]> (exchanges b)) (queues b)
              (bindings b) (consumers b) (generated b) (unacked b)
              (deliveries b))
  end.

Definition declare (name : string) (qs : gmap string (list Content))
  : gmap string (list Content) :=
  match qs !! name with
  | Some _ => qs
  | None => <[name := []]> qs
  end.

(** [assertQueue(name)]: the empty name asks the server for a name of its
    own, which it takes from the reserved [amq.gen-] names. *)
Definition assertQueue (name : string) (b : Broker) : string * Broker :=
  if bool_decide (name = ""%string) then
    let q := ("amq.gen-" +:+ pretty (generated b))%string in
    (q, MkBroker (exchanges b) (declare q (queues b)) (bindings b)
          (consumers b) (generated b + 1)%N (unacked b) (deliveries b))
  else
    (name, MkBroker (exchanges b) (declare name (queues b)) (bindings b)
             (consumers b) (generated b) (unacked b) (deliveries b)).

(** [bindQueue(queue, source, pattern)]: both ends have to exist. *)
Definition bindQueue (queue source pattern : string) (b : Broker)
  : option Broker :=
  match queues b !! queue, exchanges b !! source with
  | Some _, Some _ =>
      Some (MkBroker (exchanges b) (queues b)
              ((queue, source, pattern) :: bindings b) (consumers b)
              (generated b) (unacked b) (deliveries b))
  | _, _ => None
  end.

(** [consume(queue, callback)] *)
Definition consume (queue : string) (b : Broker) : option Broker :=
  match queues b !! queue with
  | Some _ =>
      Some (MkBroker (exchanges b) (queues b) (bindings b)
              (queue :: consumers b) (generated b) (unacked b)
              (deliveries b))
  | None => None
  end.

(** The broker hands the oldest ready message of [queue] to its consumer
    and keeps it as unacknowledged. *)
Definition deliver (queue : string) (b : Broker)
  : option (Message * Broker) :=
  match queues b !! queue with
  | Some (c :: rest) =>
      let msg := MkMessage (deliveries b + 1)%N c in
      Some (msg,
            MkBroker (exchanges b) (<[queue := rest]> (queues b))
              (bindings b) (consumers b) (generated b)
              (unacked b ++ [msg]) (deliveries b + 1)%N)
  | _ => None
  end.

(** [ack(msg)] *)
Definition ack (msg : Message) (b : Broker) : Broker :=
  MkBroker (exchanges b) (queues b) (bindings b) (consumers b)
    (generated b)
    (filter (λ m, deliveryTag m ≠ deliveryTag msg) (unacked b))
    (deliveries b).

End Amqp.

(** ** The service *)
Module Service.
Import Bson Mongo Amqp.

Inductive Body :=
| Images (images : list Doc)                  (* [{ images }] *)
| Image (image : Doc)                         (* [{ image }] *)
| Error (error : string)                      (* [{ error }] *)
| Uploaded (message : string) (image : Doc)   (* [{ message, image }] *)
| StatusText.                                 (* body of [sendStatus] *)

Record Response := MkResponse {
  status : Z;
  body : Body
}.

(** What a handler does to the outside, in the order it does it. *)
Inductive Effect :=
| Stored (filename : string)
| Inserted (doc : Doc)
| Responded (r : Response)
| Published (exchange key : string) (c : Content)
| Acked (tag : N).

Inductive Exn :=
| SyntaxError                (* [JSON.parse] *)
| TypeError                  (* property of [null] *)
| InvalidObjectId            (* [new ObjectId] *)
| MongoError (f : Failure)
| ChannelError.

Record World := MkWorld {
  imageCollection : list Doc;
  uploadDir : gmap string string;     (* file name to file content *)
  messageChannel : Broker;
  trace : list Effect
}.

(** What the surroundings feed one run of a handler: the two readings of
    the clock ([Date.now()] in the storage engine, [new Date()] in the
    route), the identifier the generator would hand out, and whether the
    database server answers. *)
Record Env := MkEnv {
  now : N;
  date : N;
  generatedId : ObjectId;
  reachable : bool
}.

(** A handler runs on the world; an exception keeps what was done before
    it was thrown. *)
Definition Eff (A : Type) : Type := World → (Exn + A) * World.

Global Instance Eff_ret : MRet Eff := λ A a w, (inr a, w).

Global Instance Eff_bind : MBind Eff := λ A B f m w,
  match m w with
  | (inl e, w') => (inl e, w')
  | (inr a, w') => f a w'
  end.

Definition throw {A} (e : Exn) : Eff A := λ w, (inl e, w).

Definition log (e : Effect) : Eff () := λ w,
  (inr (), MkWorld (imageCollection w) (uploadDir w) (messageChannel w)
             (trace w ++ [e])).

Definition on_channel (f : Broker → Broker) : Eff () := λ w,
  (inr (), MkWorld (imageCollection w) (uploadDir w)
             (f (messageChannel w)) (trace w)).

Definition try_channel (f : Broker → option Broker) : Eff () := λ w,
  match f (messageChannel w) with
  | Some b => (inr (), MkWorld (imageCollection w) (uploadDir w) b (trace w))
  | None => (inl ChannelError, w)
  end.

(** *** Calls on [imageCollection] *)

Definition imageCollection_insertOne (env : Env) (doc : Doc)
  : Eff (Doc * ObjectId) := λ w,
  match insertOne (reachable env) (generatedId env) doc (imageCollection w)
  with
  | inl f => (inl (MongoError f), w)
  | inr (doc', insertedId, coll) =>
      (inr (doc', insertedId),
       MkWorld coll (uploadDir w) (messageChannel w)
         (trace w ++ [Inserted doc']))
  end.

Definition imageCollection_findOne (env : Env) (id : ObjectId)
  : Eff (option Doc) := λ w,
  match findOne (reachable env) id (imageCollection w) with
  | inl f => (inl (MongoError f), w)
  | inr r => (inr r, w)
  end.

Definition imageCollection_find_toArray (env : Env) : Eff (list Doc) := λ w,
  match find_toArray (reachable env) (imageCollection w) with
  | inl f => (inl (MongoError f), w)
  | inr r => (inr r, w)
  end.

Definition mongodb_ObjectId (env : Env) (v : JValue) : Eff ObjectId :=
  match new_ObjectId (generatedId env) v with
  | Some id => mret id
  | None => throw InvalidObjectId
  end.

(** *** Calls on [res] and on [messageChannel] *)

Definition res_json (status : Z) (b : Body) : Eff () :=
  log (Responded (MkResponse status b)).

Definition res_sendStatus (status : Z) : Eff () :=
  log (Responded (MkResponse status StatusText)).

Definition messageChannel_sendToQueue (queue : string) (c : Content)
  : Eff () :=
  on_channel (sendToQueue queue c) ;; log (Published "" queue c).

Definition messageChannel_ack (msg : Message) : Eff () :=
  on_channel (ack msg) ;; log (Acked (deliveryTag msg)).

(** *** The storage engine of the upload middleware

    [upload.single("image")]: the file of the form field, if there is one,
    is written to the upload directory under the name
    [Date.now() + path.extname(file.originalname)]; writing to a name that
    is taken replaces the file. *)
Record Part := MkPart {
  part_originalname : string;
  part_content : string
}.

Record File := MkFile {
  originalname : string;
  filename : string
}.

Definition storage_filename (env : Env) (originalname : string) : string :=
  (pretty (now env) +:+ Path.extname originalname)%string.

Definition upload_single (env : Env) (part : option Part)
  : Eff (option File) :=
  match part with
  | None => mret None
  | Some p =>
      let name := storage_filename env (part_originalname p) in
      (λ w, (inr (),
             MkWorld (imageCollection w)
               (<[name := part_content p]> (uploadDir w))
               (messageChannel w) (trace w ++ [Stored name]))) ;;
      mret (Some (MkFile (part_originalname p) name))
  end.

(** *** [GET /images] *)
Definition get_images (env : Env) : Eff () :=
  images ← imageCollection_find_toArray env;
  res_json 200 (Images images).

(** *** [GET /image]; [id] is [req.query.id] *)
Definition query_value (id : option string) : JValue :=
  match id with
  | Some s => JStr s
  | None => JUndefined
  end.

Definition get_image (env : Env) (id : option string) : Eff () :=
  imageId ← mongodb_ObjectId env (query_value id);
  image ← imageCollection_findOne env imageId;
  match image with
  | None => res_sendStatus 404
  | Some image => res_json 200 (Image image)
  end.

(** *** [POST /upload], after the middleware has set [req.file] *)
Definition upload_route (env : Env) (file : option File) : Eff () :=
  match file with
  | None => res_json 400 (Error "No image uploaded")
  | Some file =>
      let filenameWithoutExtension :=
        Path.basename (originalname file) (Path.extname (filename file)) in
      let url :=
        ("https://www." +:+ filenameWithoutExtension +:+ ".com")%string in
      let imageUrl := ("advertise/uploads/" +:+ filename file)%string in
      let newImage := MkDoc None (JStr imageUrl) (Some (date env)) (JStr url) in
      '(newImage, insertedId) ← imageCollection_insertOne env newImage;
      res_json 201 (Uploaded "Image uploaded" newImage) ;;
      let message := JsonObj (toJSON insertedId) (JStr imageUrl) (JStr url) in
      messageChannel_sendToQueue "image-uploaded" message
  end.

Definition post_upload (env : Env) (part : option Part) : Eff () :=
  file ← upload_single env part;
  upload_route env file.

(** *** The consumer *)
Definition JSON_parse (c : Content) : Eff (JValue * JValue * JValue) :=
  match c with
  | Garbage => throw SyntaxError
  | JsonNull => throw TypeError
  | JsonObj imageId imageUrl url => mret (imageId, imageUrl, url)
  end.

Definition consumeImageUploadedMessage (env : Env) (msg : Message)
  : Eff () :=
  '(imageId, imageUrl, url) ← JSON_parse (content msg);
  id ← mongodb_ObjectId env imageId;
  let imageMetadata := MkDoc (Some id) imageUrl None url in
  imageCollection_insertOne env imageMetadata ;;
  messageChannel_ack msg.

(** *** The wiring of the channel in [startMicroservice]; the result is
    the name of the instance's queue. *)
Definition startMicroservice : Eff string :=
  try_channel (assertExchange "image-uploaded" Fanout) ;;
  queue ← (λ w,
    let '(q, b) := assertQueue "" (messageChannel w) in
    (inr q, MkWorld (imageCollection w) (uploadDir w) b (trace w)));
  try_channel (bindQueue queue "image-uploaded" "") ;;
  try_channel (consume queue) ;;
  mret queue.

(** The broker delivers the next message of [queue] to the consumer. *)
Definition on_delivery (env : Env) (queue : string) : Eff () := λ w,
  match deliver queue (messageChannel w) with
  | None => (inr (), w)
  | Some (msg, b) =>
      consumeImageUploadedMessage env msg
        (MkWorld (imageCollection w) (uploadDir w) b (trace w))
  end.

Definition empty_world : World := MkWorld [] ∅ empty_broker [].

(** *** What the upload route makes of a file part

    The values of [url], [imageUrl], [newImage] (after the insert) and
    [message] in the route, as functions of the request. *)
Definition display_url (env : Env) (part : Part) : string :=
  ("https://www."
   +:+ Path.basename (part_originalname part)
         (Path.extname (storage_filename env (part_originalname part)))
   +:+ ".com")%string.

Definition location (env : Env) (part : Part) : string :=
  ("advertise/uploads/"
   +:+ storage_filename env (part_originalname part))%string.

Definition record (env : Env) (part : Part) : Doc :=
  MkDoc (Some (generatedId env)) (JStr (location env part))
    (Some (date env)) (JStr (display_url env part)).

Definition announcement (env : Env) (part : Part) : Content :=
  JsonObj (toJSON (generatedId env)) (JStr (location env part))
    (JStr (display_url env part)).

End Service.

(** ** Sample inputs used by the examples below *)
Module Samples.
Import Bson Mongo Amqp Service.

Definition env_up : Env :=
  MkEnv 1700000000000 1700000000001 "abcdefghijkl" true.

Definition env_down : Env :=
  MkEnv 1700000000000 1700000000001 "abcdefghijkl" false.

(** A later request whose storage engine reads the same millisecond. *)
Definition env_same_ms : Env :=
  MkEnv 1700000000000 1700000000002 "mnopqrstuvwx" true.

Definition cat_png : Part := MkPart "cat.png" "first payload".
Definition cat_png' : Part := MkPart "cat.png" "second payload".

(** The event an upload that was given the identifier ["abcdefghijkl"]
    publishes. *)
Definition event : Content :=
  JsonObj (JStr "6162636465666768696a6b6c")
          (JStr "advertise/uploads/1700000000000.png")
          (JStr "https://www.cat.com").

Definition first_delivery : Message := MkMessage 1 event.

(** The record the consumer writes for [event], and the world after the
    first delivery to a fresh instance. *)
Definition replica : Doc :=
  MkDoc (Some "abcdefghijkl"%string)
    (JStr "advertise/uploads/1700000000000.png") None
    (JStr "https://www.cat.com").

Definition world_after_first : World :=
  MkWorld [replica] ∅ empty_broker [Inserted replica; Acked 1].

End Samples.

(** ** The entry point

    [main] reads four variables of the process environment and hands them
    to [startMicroservice]; a variable that is not set, or set to the empty
    string, is falsy. *)
Module Startup.

Definition falsy (v : option string) : bool :=
  match v with
  | None => true
  | Some s => bool_decide (s = ""%string)
  end.

(** What [main] comes to: the [Error] it throws, or the call it makes. *)
Inductive Outcome :=
| Thrown (message : string)
| Start (dbHost dbName rabbitHost port : string).

Definition main (process_env : gmap string string) : Outcome :=
  if falsy (process_env !! "PORT"%string)
  then Thrown "Please specify the port number using PORT."
  else if falsy (process_env !! "DBHOST"%string)
  then Thrown "Please specify the database host using DBHOST."
  else if falsy (process_env !! "DBNAME"%string)
  then Thrown "Please specify the database name using DBNAME."
  else if falsy (process_env !! "RABBIT"%string)
  then Thrown "Please specify RabbitMQ host using RABBIT."
  else
    let PORT := default ""%string (process_env !! "PORT"%string) in
    let DBHOST := default ""%string (process_env !! "DBHOST"%string) in
    let DBNAME := default ""%string (process_env !! "DBNAME"%string) in
    let RABBIT := default ""%string (process_env !! "RABBIT"%string) in
    Start DBHOST DBNAME RABBIT PORT.

End Startup.

(** ** What is looked at in a run *)
Module Observe.
Import Bson Mongo Amqp Service.

(** The responses among the effects of a trace, in order. *)
Definition responses (t : list Effect) : list Response :=
  omap (λ e, match e with Responded r => Some r | _ => None end) t.

(** The events handed to the channel. *)
Definition publications (t : list Effect) : list Content :=
  omap (λ e, match e with Published _ _ c => Some c | _ => None end) t.

(** No two documents of the collection have the same [_id]. *)
Definition unique_ids (coll : list Doc) : Prop := NoDup (_id <$> coll).

End Observe.

(** ** More sample inputs *)
Module MoreSamples.
Import Bson Mongo Amqp Service.



Definition full_env : gmap string string :=
  {[ "PORT"%string := "3000"%string; "DBHOST"%string := "mongodb://db"%string;
     "DBNAME"%string := "advertise"%string;
     "RABBIT"%string := "amqp://rabbit"%string ]}.

(** A broker on which another service has declared a queue under the name
    the upload route sends to. *)
Definition broker_with_named_queue : Broker :=
  snd (assertQueue "image-uploaded" empty_broker).

Definition world_with_named_queue : World :=
  MkWorld [] ∅ broker_with_named_queue [].

End MoreSamples.

(** * Properties *)

Import Bson Mongo Amqp Service.

(** Unfolding of the monad and of the calls the handlers are made of. *)
Ltac unfold_eff :=
  unfold res_json, res_sendStatus, messageChannel_sendToQueue,
    messageChannel_ack, imageCollection_insertOne, imageCollection_findOne,
    imageCollection_find_toArray, mongodb_ObjectId, JSON_parse, log,
    on_channel, try_channel, throw, mbind, mret, Eff_bind, Eff_ret in *.

(** ** The store *)
Section Store.

Implicit Types (coll : list Doc) (doc : Doc) (id : ObjectId).

Lemma existsb_has_id_false coll id :
  existsb (has_id id) coll = false ↔ List.find (has_id id) coll = None.
Proof.
  induction coll as [|d coll IH]; simpl; [done|].
  destruct (has_id id d); simpl; [split; discriminate | exact IH].
Qed.


Lemma existsb_has_id_app coll coll' id :
  existsb (has_id id) (coll ++ coll')
  = existsb (has_id id) coll || existsb (has_id id) coll'.
Proof. apply existsb_app. Qed.

Lemma insertOne_inr reachable generated doc coll doc' id coll' :
  insertOne reachable generated doc coll = inr (doc', id, coll') →
  reachable = true
  ∧ id = default generated (_id doc)
  ∧ doc' = MkDoc (Some id) (imageUrl doc) (uploadedAt doc) (url doc)
  ∧ existsb (has_id id) coll = false
  ∧ coll' = coll ++ [doc'].
Proof.
  unfold insertOne. destruct reachable; simpl; [|discriminate].
  destruct (existsb _ coll) eqn:E; [discriminate|].
  intros [= <- <- <-]. done.
Qed.


Lemma absent_existsb id coll :
  absent id coll ↔ existsb (has_id id) coll = false.
Proof.
  unfold absent. induction coll as [|d coll IH]; simpl.
  - split; [done|]. intros _ doc Hin. by apply elem_of_nil in Hin.
  - rewrite orb_false_iff, <- IH. unfold has_id at 1.
    rewrite bool_decide_eq_false. split.
    + intros H. split; [apply H; left|].
      intros doc Hin. apply H. by right.
    + intros [Hd H] doc [->|Hin]%elem_of_cons; auto.
Qed.

Lemma absent_findOne id coll :
  absent id coll → findOne true id coll = inr None.
Proof.
  intros H%absent_existsb%existsb_has_id_false.
  unfold findOne. simpl. by rewrite H.
Qed.

(** Inserting under an [_id] that is there already is refused. *)
Lemma insertOne_duplicate generated doc coll id :
  _id doc = Some id →
  existsb (has_id id) coll = true →
  insertOne true generated doc coll = inl DuplicateKey.
Proof. intros Hid Hin. unfold insertOne. rewrite Hid. simpl. by rewrite Hin. Qed.

End Store.

(** ** The consumer *)
Section Consumer.

Implicit Types (env : Env) (msg : Message) (w : World).

(** What one run of the consumer comes to, by the outcome of its steps. *)
Lemma consume_cases env msg w :
  (∃ imageId imageUrl url id doc coll,
      content msg = JsonObj imageId imageUrl url
      ∧ new_ObjectId (generatedId env) imageId = Some id
      ∧ insertOne (reachable env) (generatedId env)
          (MkDoc (Some id) imageUrl None url) (imageCollection w)
        = inr (doc, id, coll)
      ∧ consumeImageUploadedMessage env msg w
        = (inr (),
           MkWorld coll (uploadDir w) (ack msg (messageChannel w))
             (trace w ++ [Inserted doc; Acked (deliveryTag msg)])))
  ∨ (∃ e, consumeImageUploadedMessage env msg w = (inl e, w)
          ∧ (∀ f, e = MongoError f →
               ∃ imageId imageUrl url id,
                 content msg = JsonObj imageId imageUrl url
                 ∧ new_ObjectId (generatedId env) imageId = Some id
                 ∧ insertOne (reachable env) (generatedId env)
                     (MkDoc (Some id) imageUrl None url) (imageCollection w)
                   = inl f)).
Proof.
  unfold consumeImageUploadedMessage. unfold_eff.
  destruct (content msg) as [| |imageId imageUrl url] eqn:Hc; simpl.
  - right. eexists. split; [reflexivity|]. discriminate.
  - right. eexists. split; [reflexivity|]. discriminate.
  - destruct (new_ObjectId (generatedId env) imageId) as [id|] eqn:Hid; simpl.
    + destruct (insertOne _ _ _ _) as [f|[[doc id'] coll]] eqn:Hins; simpl.
      * right. eexists. split; [reflexivity|].
        intros f' [= <-]. by exists imageId, imageUrl, url, id.
      * left. pose proof (insertOne_inr _ _ _ _ _ _ _ Hins) as (_ & Hid' & _).
        simpl in Hid'. subst id'.
        exists imageId, imageUrl, url, id, doc, coll.
        rewrite <- app_assoc. done.
    + right. eexists. split; [reflexivity|]. discriminate.
Qed.

End Consumer.

Section Replication.

Implicit Types (env : Env) (msg : Message) (w : World).

(** C3. The consumer acknowledges a message only after its store write
    has succeeded: a run that returns has appended the write and then the
    acknowledgement, in this order; a run that throws has changed nothing,
    so the message is still unacknowledged; and a failing store write
    makes the run throw. *)
Theorem C3_ack_only_after_store_write env msg w r w' :
  consumeImageUploadedMessage env msg w = (r, w') →
  (r = inr () →
     ∃ doc, trace w' = trace w ++ [Inserted doc; Acked (deliveryTag msg)]
            ∧ imageCollection w' = imageCollection w ++ [doc]
            ∧ messageChannel w' = ack msg (messageChannel w))
  ∧ (∀ e, r = inl e → w' = w)
  ∧ (∀ imageId imageUrl url id f,
       content msg = JsonObj imageId imageUrl url →
       new_ObjectId (generatedId env) imageId = Some id →
       insertOne (reachable env) (generatedId env)
         (MkDoc (Some id) imageUrl None url) (imageCollection w) = inl f →
       r = inl (MongoError f)).
Proof.
  intros Hrun.
  destruct (consume_cases env msg w)
    as [(imageId & imageUrl & url & id & doc & coll & Hc & Hid & Hins & Hok)
       |(e & Hthrow & _)].
  - rewrite Hok in Hrun. injection Hrun as <- <-.
    split; [|split].
    + intros _. apply insertOne_inr in Hins as (_ & _ & _ & _ & ->).
      by exists doc.
    + intros e [=].
    + intros imageId' imageUrl' url' id' f Hc' Hid' Hins'.
      rewrite Hc in Hc'. injection Hc' as <- <- <-.
      rewrite Hid in Hid'. injection Hid' as <-.
      rewrite Hins in Hins'. discriminate.
  - rewrite Hthrow in Hrun. injection Hrun as <- <-.
    split; [|split].
    + intros [=].
    + done.
    + intros imageId imageUrl url id f Hc Hid Hins.
      revert Hthrow. unfold consumeImageUploadedMessage. unfold_eff.
      rewrite Hc. simpl. rewrite Hid. simpl. rewrite Hins. simpl.
      by intros [= <-].
Qed.

Lemma C3_witness :
  consumeImageUploadedMessage Samples.env_down Samples.first_delivery
    empty_world = (inl (MongoError NetworkError), empty_world)
  ∧ (∀ e, (inl (MongoError NetworkError) : Exn + ()) = inl e →
          empty_world = empty_world).
Proof.
  split; [reflexivity|].
  apply (C3_ack_only_after_store_write Samples.env_down
           Samples.first_delivery empty_world
           (inl (MongoError NetworkError)) empty_world).
  reflexivity.
Defined.








End Replication.

(** ** The query routes *)
Section Query.

Implicit Types (env : Env) (w : World).

(** C4, as the code has it. For a malformed [id] string (one the
    identifier constructor rejects: neither 12 code units nor 24
    hexadecimal digits) the route sends no response of its own, neither a
    400 nor any other: the constructor throws before the lookup and the
    exception leaves the handler. *)
Theorem C4_malformed_id_throws env s w :
  isValid s = false →
  get_image env (Some s) w = (inl InvalidObjectId, w).
Proof.
  intros Hs. unfold get_image. unfold_eff. simpl. by rewrite Hs.
Qed.

Lemma C4_witness :
  isValid "abc" = false
  ∧ get_image Samples.env_up (Some "abc"%string) empty_world
    = (inl InvalidObjectId, empty_world).
Proof.
  split; [reflexivity|].
  apply (C4_malformed_id_throws Samples.env_up "abc" empty_world).
  reflexivity.
Defined.

(** C4 fails as stated: for the malformed identifier ["abc"] the route
    answers nothing, so in particular not 400. *)
Lemma C4_counterexample :
  fst (get_image Samples.env_up (Some "abc"%string) empty_world)
  = inl InvalidObjectId
  ∧ ∀ r, Responded r ∉
           trace (snd (get_image Samples.env_up (Some "abc"%string)
                         empty_world)).
Proof.
  split; [reflexivity|]. intros r Hin. simpl in Hin.
  by apply elem_of_nil in Hin.
Qed.

(** No request at all is answered 400 by this route. *)
Lemma get_image_never_400 env id w r :
  Responded r ∈ trace (snd (get_image env id w)) →
  Responded r ∈ trace w ∨ status r = 200 ∨ status r = 404.
Proof.
  unfold get_image. unfold_eff.
  destruct (new_ObjectId _ _) as [oid|]; simpl; [|by left].
  destruct (findOne _ _ _) as [f|[image|]]; simpl; [by left| |].
  - intros [?|[= ->]%list_elem_of_singleton]%elem_of_app; auto.
  - intros [?|[= ->]%list_elem_of_singleton]%elem_of_app; auto.
Qed.

(** C10. Without an [id] parameter the constructor generates an
    identifier; when the store answers and holds no record with that
    identifier, the lookup misses and the response is 404. *)
Theorem C10_missing_id_is_404 env w :
  reachable env = true →
  absent (generatedId env) (imageCollection w) →
  get_image env None w
  = (inr (),
     MkWorld (imageCollection w) (uploadDir w) (messageChannel w)
       (trace w ++ [Responded (MkResponse 404 StatusText)])).
Proof.
  intros Hup Hfresh. unfold get_image. unfold_eff. simpl.
  rewrite Hup, (absent_findOne _ _ Hfresh). reflexivity.
Qed.

Lemma C10_witness :
  reachable Samples.env_same_ms = true
  ∧ absent (generatedId Samples.env_same_ms)
      (imageCollection Samples.world_after_first)
  ∧ get_image Samples.env_same_ms None Samples.world_after_first
    = (inr (),
       MkWorld [Samples.replica] ∅ empty_broker
         [Inserted Samples.replica; Acked 1;
          Responded (MkResponse 404 StatusText)]).
Proof.
  assert (absent (generatedId Samples.env_same_ms)
            (imageCollection Samples.world_after_first)) as Hfresh
    by (apply absent_existsb; reflexivity).
  split; [reflexivity|]. split; [exact Hfresh|].
  apply (C10_missing_id_is_404 Samples.env_same_ms
           Samples.world_after_first); [reflexivity|exact Hfresh].
Defined.

End Query.

(** ** The upload route *)
Section Upload.

Implicit Types (env : Env) (w : World) (part : Part).

(** An upload with a file, on a store that answers and has not seen the
    generated identifier: the file is stored, the record is written, the
    response is sent and then the event is published. *)
Lemma post_upload_success env part w :
  reachable env = true →
  absent (generatedId env) (imageCollection w) →
  post_upload env (Some part) w
  = (inr (),
     MkWorld (imageCollection w ++ [record env part])
       (<[storage_filename env (part_originalname part)
          := part_content part]> (uploadDir w))
       (sendToQueue "image-uploaded" (announcement env part)
          (messageChannel w))
       (trace w ++
          [Stored (storage_filename env (part_originalname part));
           Inserted (record env part);
           Responded (MkResponse 201
                        (Uploaded "Image uploaded" (record env part)));
           Published "" "image-uploaded" (announcement env part)])).
Proof.
  intros Hup Hfresh%absent_existsb.
  unfold post_upload, upload_single, upload_route. unfold_eff.
  cbn [originalname filename imageCollection uploadDir messageChannel trace].
  unfold insertOne. cbn [_id imageUrl uploadedAt url default].
  rewrite Hup, Hfresh. cbn.
  by rewrite <- !app_assoc.
Qed.

(** C5. A valid upload whose store write goes through is answered 201,
    and the [_id] of the record in the response body is the identifier
    whose JSON form is the [imageId] of the event published next. *)
Theorem C5_upload_201_and_same_id env part w :
  reachable env = true →
  absent (generatedId env) (imageCollection w) →
  ∃ w' image id imageUrl url,
    post_upload env (Some part) w = (inr (), w')
    ∧ trace w'
      = trace w ++
          [Stored (storage_filename env (part_originalname part));
           Inserted image;
           Responded (MkResponse 201 (Uploaded "Image uploaded" image));
           Published "" "image-uploaded" (JsonObj (toJSON id) imageUrl url)]
    ∧ _id image = Some id.
Proof.
  intros Hup Hfresh.
  eexists _, (record env part), (generatedId env), _, _.
  split; [exact (post_upload_success env part w Hup Hfresh)|].
  split; reflexivity.
Qed.

Lemma C5_witness :
  reachable Samples.env_up = true
  ∧ absent (generatedId Samples.env_up) (imageCollection empty_world)
  ∧ ∃ w' image id imageUrl url,
      post_upload Samples.env_up (Some Samples.cat_png) empty_world
      = (inr (), w')
      ∧ trace w'
        = trace empty_world ++
            [Stored (storage_filename Samples.env_up
                       (part_originalname Samples.cat_png));
             Inserted image;
             Responded (MkResponse 201 (Uploaded "Image uploaded" image));
             Published "" "image-uploaded"
               (JsonObj (toJSON id) imageUrl url)]
      ∧ _id image = Some id.
Proof.
  assert (absent (generatedId Samples.env_up) (imageCollection empty_world))
    as Hfresh by (apply absent_existsb; reflexivity).
  split; [reflexivity|]. split; [exact Hfresh|].
  apply (C5_upload_201_and_same_id Samples.env_up Samples.cat_png
           empty_world); [reflexivity|exact Hfresh].
Defined.

(** C6. A request without a file is answered 400; the store, the upload
    directory and the channel are left as they were, and the response is
    the only thing the request does. *)
Theorem C6_no_file_is_400 env w :
  post_upload env None w
  = (inr (),
     MkWorld (imageCollection w) (uploadDir w) (messageChannel w)
       (trace w ++ [Responded (MkResponse 400 (Error "No image uploaded"))])).
Proof. reflexivity. Qed.

End Upload.

(** ** Strings *)
Section Strings.

Lemma chars_app s1 s2 : Js.chars (s1 +:+ s2) = Js.chars s1 ++ Js.chars s2.
Proof. induction s1 as [|c s1 IH]; simpl; [done|]. by rewrite <- IH. Qed.

Lemma chars_inj s1 s2 : Js.chars s1 = Js.chars s2 → s1 = s2.
Proof.
  intros H. rewrite <- (string_of_list_ascii_of_string s1),
    <- (string_of_list_ascii_of_string s2). unfold Js.chars in H.
  by rewrite H.
Qed.

Lemma length_chars s : length (Js.chars s) = String.length s.
Proof. induction s; simpl; auto. Qed.

Lemma length_append s1 s2 :
  String.length (s1 +:+ s2) = (String.length s1 + String.length s2)%nat.
Proof. by rewrite <- !length_chars, chars_app, length_app. Qed.

Lemma append_inv_tail s1 s2 e : (s1 +:+ e = s2 +:+ e)%string → s1 = s2.
Proof.
  intros H. apply chars_inj. apply (f_equal Js.chars) in H.
  rewrite !chars_app in H. by apply app_inv_tail in H.
Qed.

End Strings.

(** ** The storage engine *)
Section Storage.

Lemma storage_filename_inj env1 env2 originalname :
  storage_filename env1 originalname = storage_filename env2 originalname →
  now env1 = now env2.
Proof.
  unfold storage_filename. intros Heq.
  apply append_inv_tail in Heq. by apply (inj pretty) in Heq.
Qed.

(** C8, as the code has it. The storage name is the reading of the clock
    in milliseconds followed by the extension of the original name.  So two
    uploads with the same original file name get different storage names
    exactly when their clock readings differ, and then both files are in
    the upload directory with their own content; uploads that fall into the
    same millisecond share one name, and the file of the first is replaced
    by the file of the second. *)
Theorem C8_names_differ_iff_clock_differs env1 env2 part1 part2 w :
  part_originalname part1 = part_originalname part2 →
  (storage_filename env1 (part_originalname part1)
   ≠ storage_filename env2 (part_originalname part2)
   ↔ now env1 ≠ now env2)
  ∧ (now env1 ≠ now env2 →
     uploadDir (snd (upload_single env2 (Some part2)
                       (snd (upload_single env1 (Some part1) w))))
       !! storage_filename env1 (part_originalname part1)
     = Some (part_content part1)
     ∧ uploadDir (snd (upload_single env2 (Some part2)
                         (snd (upload_single env1 (Some part1) w))))
         !! storage_filename env2 (part_originalname part2)
       = Some (part_content part2))
  ∧ (now env1 = now env2 →
     uploadDir (snd (upload_single env2 (Some part2)
                       (snd (upload_single env1 (Some part1) w))))
       !! storage_filename env1 (part_originalname part1)
     = Some (part_content part2)).
Proof.
  intros Hname. rewrite <- Hname.
  assert (storage_filename env1 (part_originalname part1)
          ≠ storage_filename env2 (part_originalname part1)
          ↔ now env1 ≠ now env2) as Hiff.
  { split.
    - intros Hne Heq. apply Hne. unfold storage_filename. by rewrite Heq.
    - intros Hne Heq. by apply Hne, (storage_filename_inj _ _ _ Heq). }
  split; [exact Hiff|].
  unfold upload_single. unfold_eff. cbn [snd uploadDir]. rewrite <- Hname.
  split.
  - intros Hne%Hiff. split.
    + rewrite lookup_insert_ne by done. apply lookup_insert_eq.
    + apply lookup_insert_eq.
  - intros Heq. unfold storage_filename. rewrite Heq. apply lookup_insert_eq.
Qed.

Lemma C8_witness :
  part_originalname Samples.cat_png = part_originalname Samples.cat_png'
  ∧ (now Samples.env_up = now Samples.env_same_ms →
     uploadDir (snd (upload_single Samples.env_same_ms (Some Samples.cat_png')
                       (snd (upload_single Samples.env_up
                               (Some Samples.cat_png) empty_world))))
       !! storage_filename Samples.env_up (part_originalname Samples.cat_png)
     = Some (part_content Samples.cat_png')).
Proof.
  split; [reflexivity|].
  apply (C8_names_differ_iff_clock_differs Samples.env_up Samples.env_same_ms
           Samples.cat_png Samples.cat_png' empty_world).
  reflexivity.
Defined.

(** C8 fails as stated: two uploads of [cat.png] in the same millisecond
    get the same storage name, and the second one replaces the file of the
    first. *)
Lemma C8_counterexample :
  storage_filename Samples.env_up (part_originalname Samples.cat_png)
  = storage_filename Samples.env_same_ms (part_originalname Samples.cat_png')
  ∧ ∃ w1 w2,
      post_upload Samples.env_up (Some Samples.cat_png) empty_world
      = (inr (), w1)
      ∧ post_upload Samples.env_same_ms (Some Samples.cat_png') w1
        = (inr (), w2)
      ∧ uploadDir w1 !! "1700000000000.png"%string = Some "first payload"%string
      ∧ uploadDir w2 = {[ "1700000000000.png"%string := "second payload"%string ]}.
Proof.
  split; [reflexivity|].
  eexists (MkWorld _ _ _ _), (MkWorld _ _ _ _).
  split; [vm_compute; reflexivity|].
  split; [vm_compute; reflexivity|].
  split; vm_compute; reflexivity.
Qed.

End Storage.

(** ** The channel *)
Section Channel.

Implicit Types (b : Broker) (c : Content) (q : string).

(** [sendToQueue] reaches the queue it names and no other. *)
Lemma sendToQueue_other queue c b q :
  q ≠ queue →
  queues (sendToQueue queue c b) !! q = queues b !! q.
Proof.
  intros Hne. unfold sendToQueue, publish. simpl.
  rewrite map_lookup_imap. unfold routed.
  rewrite bool_decide_eq_true_2 by done.
  destruct (queues b !! q); simpl; [|done].
  by rewrite bool_decide_eq_false_2.
Qed.

Lemma sendToQueue_same queue c b :
  queues (sendToQueue queue c b) !! queue
  = (λ ms, ms ++ [c]) <$> queues b !! queue.
Proof.
  unfold sendToQueue, publish. simpl.
  rewrite map_lookup_imap. unfold routed.
  rewrite bool_decide_eq_true_2 by done.
  destruct (queues b !! queue); simpl; [|done].
  by rewrite bool_decide_eq_true_2.
Qed.

(** Publishing to a fanout exchange gives every queue bound to it a copy,
    whatever the routing key. *)
Lemma publish_fanout exchange key c b q :
  exchange ≠ ""%string →
  exchanges b !! exchange = Some Fanout →
  bound b exchange key true q = true →
  queues (publish exchange key c b) !! q
  = (λ ms, ms ++ [c]) <$> queues b !! q.
Proof.
  intros Hne Hx Hb. unfold publish. simpl.
  rewrite map_lookup_imap. unfold routed.
  rewrite bool_decide_eq_false_2 by done. rewrite Hx, Hb.
  by destruct (queues b !! q).
Qed.

Lemma generated_name_is_not_the_exchange (n : N) :
  ("amq.gen-" +:+ pretty n)%string ≠ "image-uploaded"%string.
Proof. discriminate. Qed.

(** What the wiring has established when [startMicroservice] gets
    through it. *)
Lemma startMicroservice_inr w queue w1 :
  startMicroservice w = (inr queue, w1) →
  queue = ("amq.gen-" +:+ pretty (generated (messageChannel w)))%string
  ∧ routed (messageChannel w1) "image-uploaded" "" queue = true
  ∧ is_Some (queues (messageChannel w1) !! queue)
  ∧ queue ∈ consumers (messageChannel w1).
Proof.
  unfold startMicroservice. unfold_eff. simpl.
  destruct (assertExchange _ _ _) as [b1|] eqn:Hx; simpl; [|discriminate].
  destruct (bindQueue _ _ _ _) as [b2|] eqn:Hb; simpl; [|discriminate].
  destruct (consume _ _) as [b3|] eqn:Hc; simpl; [|discriminate].
  intros [= <- <-]. simpl.
  assert (exchanges b1 !! "image-uploaded"%string = Some Fanout) as Hx1.
  { unfold assertExchange in Hx.
    destruct (exchanges (messageChannel w) !! _) as [t|] eqn:Hl.
    - case_bool_decide; [|discriminate]. injection Hx as <-. by subst.
    - injection Hx as <-. simpl. apply lookup_insert_eq. }
  assert (generated b1 = generated (messageChannel w)) as Hg.
  { unfold assertExchange in Hx.
    destruct (exchanges (messageChannel w) !! _);
      [case_bool_decide; [|discriminate]|]; by injection Hx as <-. }
  unfold bindQueue in Hb. simpl in Hb.
  destruct (declare _ _ !! _) eqn:Hq; [|discriminate].
  rewrite Hx1 in Hb. injection Hb as <-.
  unfold consume in Hc. simpl in Hc. rewrite Hq in Hc.
  injection Hc as <-. simpl.
  split; [by rewrite Hg|]. split; [|split].
  - unfold routed. simpl. rewrite Hx1. unfold bound. simpl.
    by rewrite !bool_decide_eq_true_2.
  - by rewrite Hq.
  - apply elem_of_cons. by left.
Qed.

End Channel.

Section UploadChannel.

Implicit Types (env : Env) (w : World) (part : Part).

Lemma post_upload_inr env part w w' :
  post_upload env (Some part) w = (inr (), w') →
  reachable env = true ∧ absent (generatedId env) (imageCollection w).
Proof.
  unfold post_upload, upload_single, upload_route. unfold_eff.
  cbn [originalname filename imageCollection uploadDir messageChannel trace].
  destruct (insertOne _ _ _ _) as [f|[[doc id] coll]] eqn:Hins;
    [discriminate|].
  intros _. apply insertOne_inr in Hins as (Hup & -> & _ & Hno & _).
  split; [done|]. by apply absent_existsb.
Qed.

(** C1. What the code does where the specification asks for a delivery:
    on an instance whose wiring went through, the queue of the instance is
    bound to the fanout exchange [image-uploaded], so anything published
    to that exchange would reach it; the upload route hands its event to
    [sendToQueue], that is to the default exchange under the routing key
    [image-uploaded], and the queue of the instance holds after the
    upload what it held before. *)
Theorem C1_upload_event_bypasses_the_exchange env part w queue w1 w2 :
  startMicroservice w = (inr queue, w1) →
  post_upload env (Some part) w1 = (inr (), w2) →
  routed (messageChannel w1) "image-uploaded" "" queue = true
  ∧ last (trace w2)
    = Some (Published "" "image-uploaded" (announcement env part))
  ∧ queues (messageChannel w2) !! queue
    = queues (messageChannel w1) !! queue.
Proof.
  intros (-> & Hrouted & _)%startMicroservice_inr Hup.
  pose proof (post_upload_inr _ _ _ _ Hup) as [Hr Hfresh].
  rewrite (post_upload_success _ _ _ Hr Hfresh) in Hup.
  injection Hup as <-. cbn [messageChannel trace].
  split; [exact Hrouted|]. split.
  - by rewrite last_app.
  - apply sendToQueue_other, generated_name_is_not_the_exchange.
Qed.

Lemma C1_witness :
  ∃ w1 w2,
    startMicroservice empty_world = (inr "amq.gen-0"%string, w1)
    ∧ post_upload Samples.env_up (Some Samples.cat_png) w1 = (inr (), w2)
    ∧ routed (messageChannel w1) "image-uploaded" "" "amq.gen-0" = true
    ∧ last (trace w2)
      = Some (Published "" "image-uploaded"
                (announcement Samples.env_up Samples.cat_png))
    ∧ queues (messageChannel w2) !! "amq.gen-0"%string
      = queues (messageChannel w1) !! "amq.gen-0"%string
    ∧ queues (messageChannel w2) !! "amq.gen-0"%string = Some [].
Proof.
  pose (w1 := snd (startMicroservice empty_world)).
  pose (w2 := snd (post_upload Samples.env_up (Some Samples.cat_png) w1)).
  assert (startMicroservice empty_world = (inr "amq.gen-0"%string, w1))
    as H1 by (vm_compute; reflexivity).
  assert (post_upload Samples.env_up (Some Samples.cat_png) w1 = (inr (), w2))
    as H2 by (vm_compute; reflexivity).
  exists w1, w2. split; [exact H1|]. split; [exact H2|].
  destruct (C1_upload_event_bypasses_the_exchange Samples.env_up
              Samples.cat_png empty_world "amq.gen-0" w1 w2 H1 H2)
    as (Ha & Hb & Hc).
  split; [exact Ha|]. split; [exact Hb|]. split; [exact Hc|].
  vm_compute. reflexivity.
Defined.

End UploadChannel.


(** ** Node's [path] *)
Section PathFacts.

Import Js Path.

Lemma append_cons c (x t : string) :
  (String c x +:+ t)%string = String c (x +:+ t).
Proof. reflexivity. Qed.

Lemma append_nil (t : string) : (""  +:+ t)%string = t.
Proof. reflexivity. Qed.

Lemma substring_prefix (x t : string) :
  substring 0 (String.length x) (x +:+ t) = x.
Proof.
  induction x as [|c x IH].
  - by destruct t.
  - rewrite append_cons. simpl. by rewrite IH.
Qed.

Lemma substring_middle (a x t : string) :
  substring (String.length a) (String.length x) (a +:+ x +:+ t) = x.
Proof.
  induction a as [|c a IH]; [exact (substring_prefix x t)|exact IH].
Qed.

Lemma slice_middle (a x t : string) :
  slice (a +:+ x +:+ t) (len a) (len a + len x) = x.
Proof.
  unfold slice, clamp, len.
  rewrite !length_append.
  replace (_ <? 0) with false by (symmetry; apply Z.ltb_ge; lia).
  replace (_ + _ <? 0) with false by (symmetry; apply Z.ltb_ge; lia).
  rewrite !Z.min_l by lia.
  replace (Z.to_nat (_ - _)) with (String.length x) by lia.
  rewrite Nat2Z.id. apply substring_middle.
Qed.

Lemma chars_of_list l : chars (string_of_list_ascii l) = l.
Proof. apply list_ascii_of_string_of_list_ascii. Qed.

Lemma slice_chars path (a x t : list ascii) :
  chars path = a ++ x ++ t →
  slice path (Z.of_nat (length a)) (Z.of_nat (length a + length x))
  = string_of_list_ascii x.
Proof.
  intros H.
  assert (path = string_of_list_ascii a +:+ string_of_list_ascii x
                 +:+ string_of_list_ascii t)%string as ->.
  { apply chars_inj. by rewrite !chars_app, !chars_of_list. }
  replace (Z.of_nat (length a)) with (len (string_of_list_ascii a))
    by (unfold len; by rewrite <- length_chars, chars_of_list).
  replace (Z.of_nat (length a + length x))
    with (len (string_of_list_ascii a) + len (string_of_list_ascii x))
    by (unfold len; rewrite <- !length_chars, !chars_of_list; lia).
  apply slice_middle.
Qed.

Lemma ext_step_inv l n c st :
  l !! n = Some c →
  ext_inv l (S n) st →
  match ext_step (Z.of_nat n) c st with
  | inl st' => ext_inv l (S n) st' ∧ startPart st' = Z.of_nat (S n)
               ∧ c = CHAR_FORWARD_SLASH
  | inr st' => ext_inv l n st' ∧ startPart st' = startPart st
  end.
Proof.
  intros Hc Hinv. unfold ext_step.
  pose proof (drop_S _ _ _ Hc) as Hdrop.
  destruct (Ascii.eqb_spec c CHAR_FORWARD_SLASH) as [->|Hslash].
  - destruct Hinv as [Hsd He Hm Hp Hall|r t Hsd He Hm Hp Hd Hr Ht
                     |a r t Hl Hsd He Hm Hr Ht Hn Hp0 Hp1].
    + rewrite Hm. simpl. split; [|done].
      apply ext_inv_slashes; try done. rewrite Hdrop. by constructor.
    + rewrite Hm. simpl. split; [|split; [lia|done]].
      by eapply ext_inv_tail.
    + rewrite Hm. simpl. split; [|split; [lia|done]].
      by eapply ext_inv_dot.
  - destruct (Ascii.eqb_spec c CHAR_DOT) as [->|Hdot].
    + destruct Hinv as [Hsd He Hm Hp Hall|r t Hsd He Hm Hp Hd Hr Ht
                       |a r t Hl Hsd He Hm Hr Ht Hn Hp0 Hp1].
      * rewrite He, Hsd. simpl. split; [|done].
        apply (ext_inv_dot _ _ _ (take n l) [] (drop (S n) l)); simpl;
          try done.
        -- by rewrite take_drop_middle.
        -- rewrite length_take_le; [done|]. apply lookup_lt_Some in Hc. lia.
        -- rewrite length_take_le; [lia|]. apply lookup_lt_Some in Hc. lia.
        -- rewrite length_take_le; [lia|]. apply lookup_lt_Some in Hc. lia.
        -- rewrite length_take_le; [lia|]. apply lookup_lt_Some in Hc. lia.
      * replace (end_ st =? -1) with false by (symmetry; apply Z.eqb_neq; lia).
        rewrite Hsd. simpl. split; [|done].
        apply (ext_inv_dot _ _ _ (take n l) r t); simpl; try done.
        -- rewrite <- Hd. by rewrite take_drop_middle.
        -- rewrite length_take_le; [done|]. apply lookup_lt_Some in Hc. lia.
        -- rewrite length_take_le; [lia|]. apply lookup_lt_Some in Hc. lia.
        -- rewrite length_take_le; [lia|]. apply lookup_lt_Some in Hc. lia.
        -- rewrite length_take_le; [lia|]. apply lookup_lt_Some in Hc. lia.
      * replace (end_ st =? -1) with false by (symmetry; apply Z.eqb_neq; lia).
        replace (startDot st =? -1) with false
          by (symmetry; apply Z.eqb_neq; lia).
        assert (ext_inv l n (ExtState (startDot st) (startPart st) (end_ st)
                               (matchedSlash st) 1)) as Hgoal.
        { apply (ext_inv_dot _ _ _ a r t); simpl; try done; [lia|lia|].
          intros _. exists CHAR_DOT. by rewrite Hc. }
        destruct (preDotState st =? 1) eqn:E; simpl; [|done].
        apply Z.eqb_eq in E. split; [|done].
        destruct st; simpl in *. by subst.
    + destruct Hinv as [Hsd He Hm Hp Hall|r t Hsd He Hm Hp Hd Hr Ht
                       |a r t Hl Hsd He Hm Hr Ht Hn Hp0 Hp1].
      * rewrite He, Hsd. simpl. split; [|done].
        apply (ext_inv_tail _ _ _ [c] (drop (S n) l)); simpl; try done.
        -- lia.
        -- by repeat constructor.
      * replace (end_ st =? -1) with false by (symmetry; apply Z.eqb_neq; lia).
        rewrite Hsd. simpl. split; [|done].
        apply (ext_inv_tail _ _ _ (c :: r) t); simpl; try done.
        -- lia.
        -- by rewrite Hdrop, Hd.
        -- by repeat constructor.
      * replace (end_ st =? -1) with false by (symmetry; apply Z.eqb_neq; lia).
        replace (startDot st =? -1) with false
          by (symmetry; apply Z.eqb_neq; lia).
        simpl. split; [|done].
        apply (ext_inv_dot _ _ _ a r t); simpl; try done; [lia|lia|].
        intros _. exists c. rewrite Hc. split; [done|]. split; [done|].
        by destruct (Ascii.eqb_spec c CHAR_DOT).
Qed.

Lemma ext_loop_inv l n st :
  (n ≤ length l)%nat → ext_inv l n st → startPart st = 0 →
  ∃ m, ext_inv l m (ext_loop (rev (take n l)) st)
       ∧ startPart (ext_loop (rev (take n l)) st) = Z.of_nat m
       ∧ (m = 0%nat ∨ l !! (m - 1)%nat = Some CHAR_FORWARD_SLASH).
Proof.
  revert st. induction n as [|n IH]; intros st Hn Hinv Hsp.
  - exists 0%nat. rewrite take_0. simpl. auto.
  - destruct (lookup_lt_is_Some_2 l n) as [c Hc]; [lia|].
    rewrite (take_S_r _ _ _ Hc), rev_unit. simpl.
    rewrite length_rev, length_take_le by lia.
    pose proof (ext_step_inv l n c st Hc Hinv) as Hstep.
    destruct (ext_step (Z.of_nat n) c st) as [st'|st'].
    + destruct Hstep as (Hinv' & Hsp' & ->).
      exists (S n). split; [done|]. split; [done|]. right.
      by replace (S n - 1)%nat with n by lia.
    + destruct Hstep as (Hinv' & Hsp').
      apply IH; [lia|done|congruence].
Qed.

Lemma ext_final path :
  ∃ m, ext_inv (chars path) m (ext_loop (rev (chars path)) ext_init)
       ∧ startPart (ext_loop (rev (chars path)) ext_init) = Z.of_nat m
       ∧ (m = 0%nat ∨ chars path !! (m - 1)%nat = Some CHAR_FORWARD_SLASH).
Proof.
  pose proof (ext_loop_inv (chars path) (length (chars path)) ext_init) as H.
  rewrite take_ge in H by lia.
  apply H; [lia| |done].
  apply ext_inv_slashes; try done. by rewrite drop_all.
Qed.

(** The extension is empty, or it is the last dot of the last component and
    the plain code units after it, with something in front of the dot. *)
Lemma extname_shape path :
  extname path = ""%string
  ∨ ∃ a r t,
      chars path = a ++ CHAR_DOT :: r ++ t
      ∧ extname path = String CHAR_DOT (string_of_list_ascii r)
      ∧ Forall plain r ∧ Forall slash t ∧ a ≠ [].
Proof.
  unfold extname.
  destruct (ext_final path) as (m & Hinv & _ & _).
  destruct Hinv as [Hsd He Hm Hp Hall|r t Hsd He Hm Hp Hd Hr Ht
                   |a r t Hl Hsd He Hm Hr Ht Hn Hp0 Hp1].
  - left. by rewrite Hsd.
  - left. by rewrite Hsd.
  - match goal with |- context [if ?b then _ else _] => destruct b eqn:Hb end;
      [by left|right].
    exists a, r, t. split; [done|]. split; [|split; [done|split; [done|]]].
    + rewrite Hsd, He.
      replace (length a + 1 + length r)%nat
        with (length a + length (CHAR_DOT :: r))%nat by (simpl; lia).
      by rewrite (slice_chars path a (CHAR_DOT :: r) t).
    + intros ->. simpl in *.
      assert (m = 0%nat) as -> by lia.
      rewrite Hp0 in Hb by done.
      rewrite Z.eqb_refl, orb_true_r in Hb. done.
Qed.

Lemma first_occurrence {A} (x : A) (r r' a d : list A) :
  r ++ x :: a = r' ++ x :: d → x ∉ r → x ∉ r' → r = r' ∧ a = d.
Proof.
  revert r'. induction r as [|y r IH]; intros [|y' r'] H Hr Hr'; simpl in *.
  - by injection H as <-.
  - injection H as <- _. exfalso. apply Hr'. by left.
  - injection H as -> _. exfalso. apply Hr. by left.
  - injection H as <- H. apply IH in H as [-> ->]; [done| |].
    + intros ?. apply Hr. by right.
    + intros ?. apply Hr'. by right.
Qed.

Lemma last_occurrence {A} (x : A) (r r' a d : list A) :
  a ++ x :: r = d ++ x :: r' → x ∉ r → x ∉ r' → a = d ∧ r = r'.
Proof.
  intros H Hr Hr'. apply (f_equal reverse) in H.
  rewrite !reverse_app, !reverse_cons, <- !app_assoc in H. simpl in H.
  apply first_occurrence in H as [H1 H2].
  - split; [by apply (inj reverse)|by apply (inj reverse)].
  - by rewrite elem_of_reverse.
  - by rewrite elem_of_reverse.
Qed.

Lemma plain_not_dot r : Forall plain r → CHAR_DOT ∉ r.
Proof.
  intros H Hin. rewrite Forall_forall in H. by destruct (H _ Hin).
Qed.

Lemma plain_not_slash r : Forall plain r → CHAR_FORWARD_SLASH ∉ r.
Proof.
  intros H Hin. rewrite Forall_forall in H. by destruct (H _ Hin).
Qed.

Lemma slash_nil t l : Forall slash t → CHAR_FORWARD_SLASH ∉ l → t ⊆ l → t = [].
Proof.
  intros Ht Hl Hsub. destruct t as [|c t]; [done|].
  exfalso. apply Hl. inversion Ht as [|? ? Hc _]; subst. rewrite <- Hc.
  apply Hsub. by left.
Qed.

(** A name without a dot has no extension. *)
Lemma extname_no_dot path :
  CHAR_DOT ∉ chars path → extname path = ""%string.
Proof.
  intros Hno.
  destruct (extname_shape path) as [H|(a & r & t & Hl & _)]; [done|].
  exfalso. apply Hno. rewrite Hl. apply elem_of_app. right. by left.
Qed.

(** A plain stem followed by a dot and plain code units: the extension is
    the dot and what follows it. *)
Lemma extname_after_stem (d r : list ascii) :
  d ≠ [] → Forall plain d → Forall plain r →
  extname (string_of_list_ascii (d ++ CHAR_DOT :: r))
  = String CHAR_DOT (string_of_list_ascii r).
Proof.
  intros Hd Hpd Hpr. unfold extname.
  set (path := string_of_list_ascii (d ++ CHAR_DOT :: r)).
  assert (chars path = d ++ CHAR_DOT :: r) as Hpath by apply chars_of_list.
  assert (CHAR_FORWARD_SLASH ∉ chars path) as Hnoslash.
  { rewrite Hpath. intros [?|[?|?]%elem_of_cons]%elem_of_app.
    - by apply (plain_not_slash d).
    - done.
    - by apply (plain_not_slash r). }
  destruct (ext_final path) as (m & Hinv & Hsp & Hm).
  assert (m = 0%nat) as ->.
  { destruct Hm as [?|Hm]; [done|]. exfalso. apply Hnoslash.
    by eapply list_elem_of_lookup_2. }
  destruct Hinv as [Hsd He Hms Hp Hall|r' t Hsd He Hms Hp Hdr Hr Ht
                   |a r' t Hl Hsd He Hms Hr Ht Hn Hp0 Hp1].
  - exfalso. rewrite drop_0, Hpath in Hall.
    destruct d as [|c d]; [done|]. inversion Hall as [|? ? Hc _]; subst.
    inversion Hpd as [|? ? [_ Hc'] _]; subst. done.
  - exfalso. rewrite drop_0, Hpath in Hdr.
    assert (CHAR_DOT ∈ r' ++ t) as [Hin|Hin]%elem_of_app.
    { rewrite <- Hdr. apply elem_of_app. right. by left. }
    + by apply (plain_not_dot r').
    + rewrite Forall_forall in Ht. by specialize (Ht _ Hin).
  - assert (t = []) as ->.
    { apply (slash_nil _ (chars path)); [done|done|].
      rewrite Hl. intros x Hx. apply elem_of_app. right. right.
      apply elem_of_app. by right. }
    rewrite app_nil_r in Hl. rewrite Hpath in Hl.
    symmetry in Hl.
    apply last_occurrence in Hl as [-> ->];
      [|by apply plain_not_dot|by apply plain_not_dot].
    destruct d as [|c d]; [done|].
    destruct Hp1 as (c' & Hc' & _ & Hp1); [simpl; lia|].
    rewrite Hpath in Hc'. simpl in Hc'. injection Hc' as <-.
    inversion Hpd as [|? ? [Hc _] _]; subst.
    destruct (Ascii.eqb_spec c CHAR_DOT); [done|].
    rewrite Hp1, Hsd, He.
    replace (_ =? -1) with false by (symmetry; apply Z.eqb_neq; lia).
    replace (_ =? -1) with false by (symmetry; apply Z.eqb_neq; lia).
    change (-1 =? 0) with false. change (-1 =? 1) with false.
    cbn [orb andb].
    replace (length (c :: d) + 1 + length r)%nat
      with (length (c :: d) + length (CHAR_DOT :: r))%nat by (simpl; lia).
    rewrite (slice_chars path (c :: d) (CHAR_DOT :: r) []); [done|].
    by rewrite app_nil_r.
Qed.

Lemma pretty_N_char_plain x : plain (pretty_N_char x).
Proof. unfold pretty_N_char, plain. by repeat case_match. Qed.

Lemma pretty_N_go_plain x s :
  Forall plain (chars s) → Forall plain (chars (pretty_N_go x s)).
Proof.
  revert s. induction (N.lt_wf_0 x) as [x _ IH]; intros s Hs.
  destruct (decide (x = 0%N)) as [->|Hx].
  - by rewrite pretty_N_go_0.
  - rewrite pretty_N_go_step by lia. apply IH.
    + apply N.div_lt; lia.
    + simpl. constructor; [apply pretty_N_char_plain|done].
Qed.

Lemma pretty_N_go_nonempty x s : s ≠ ""%string → pretty_N_go x s ≠ ""%string.
Proof.
  revert s. induction (N.lt_wf_0 x) as [x _ IH]; intros s Hs.
  destruct (decide (x = 0%N)) as [->|Hx].
  - by rewrite pretty_N_go_0.
  - rewrite pretty_N_go_step by lia. apply IH; [apply N.div_lt; lia|done].
Qed.

(** The decimal form of the clock reading is a non-empty run of digits. *)
Lemma pretty_N_plain (n : N) :
  Forall plain (chars (pretty n)) ∧ chars (pretty n) ≠ [].
Proof.
  unfold pretty, pretty_N. case_decide as Hn.
  - split; [|done]. simpl. by repeat constructor.
  - split; [by apply pretty_N_go_plain|].
    intros H. 
    assert (pretty_N_go n "" = ""%string) as H'.
    { apply chars_inj. by rewrite H. }
    revert H'. rewrite pretty_N_go_step by lia. by apply pretty_N_go_nonempty.
Qed.

Lemma string_of_chars s : string_of_list_ascii (chars s) = s.
Proof. apply string_of_list_ascii_of_string. Qed.

(** The storage name has the extension of the original name. *)
Lemma extname_storage_filename env originalname :
  extname (storage_filename env originalname) = extname originalname.
Proof.
  unfold storage_filename.
  destruct (pretty_N_plain (now env)) as [Hplain Hne].
  destruct (extname_shape originalname)
    as [->|(a & r & t & _ & -> & Hr & _)].
  - replace (pretty (now env) +:+ "")%string
      with (pretty (now env))
      by (apply chars_inj; by rewrite chars_app, app_nil_r).
    apply extname_no_dot. by apply plain_not_dot.
  - replace (pretty (now env)
             +:+ String CHAR_DOT (string_of_list_ascii r))%string
      with (string_of_list_ascii
              (chars (pretty (now env)) ++ CHAR_DOT :: r)).
    + by apply extname_after_stem.
    + apply chars_inj. rewrite chars_app, chars_of_list. unfold chars.
      simpl. by rewrite list_ascii_of_string_of_list_ascii.
Qed.

Lemma get_string_of_list l n :
  String.get n (string_of_list_ascii l) = l !! n.
Proof.
  revert n. induction l as [|c l IH]; intros [|n]; simpl; auto.
Qed.

Lemma slice_prefix path (x t : list ascii) :
  chars path = x ++ t →
  slice path 0 (Z.of_nat (length x)) = string_of_list_ascii x.
Proof. intros H. exact (slice_chars path [] x t H). Qed.

Lemma base_loop_plain_idle l st :
  CHAR_FORWARD_SLASH ∉ l → b_end st ≠ -1 →
  base_loop_plain (rev l) st = st.
Proof.
  induction l as [|c l IH] using rev_ind; intros Hl He; [done|].
  rewrite rev_unit. simpl. unfold base_step_plain.
  destruct (Ascii.eqb_spec c CHAR_FORWARD_SLASH) as [->|_].
  - exfalso. apply Hl, elem_of_app. right. by left.
  - replace (b_end st =? -1) with false by (symmetry; by apply Z.eqb_neq).
    apply IH; [|done]. intros ?. apply Hl, elem_of_app. by left.
Qed.

(** Without a suffix and without slashes [basename] is the identity. *)
Lemma basename_no_suffix path :
  CHAR_FORWARD_SLASH ∉ chars path → basename path "" = path.
Proof.
  intros Hl. unfold basename.
  change ((0 <? len "") && (len "" <=? len path)) with false. cbv iota.
  destruct (chars path) as [|c l _] eqn:Hpath using rev_ind.
  - simpl. apply chars_inj. by rewrite Hpath.
  - set (st := base_loop_plain _ _).
    assert (st = BaseState 0 (Z.of_nat (length (l ++ [c]))) false (-1) (-1))
      as ->.
    { subst st. rewrite rev_unit. simpl. unfold base_step_plain.
      destruct (Ascii.eqb_spec c CHAR_FORWARD_SLASH) as [->|_].
      { exfalso. apply Hl, elem_of_app. right. by left. }
      simpl. rewrite base_loop_plain_idle; simpl.
      - rewrite length_rev, length_app. simpl. f_equal. lia.
      - intros ?. apply Hl, elem_of_app. by left.
      - rewrite length_rev. lia. }
    cbn [b_start b_end].
    replace (_ =? -1) with false by (symmetry; apply Z.eqb_neq; lia).
    rewrite (slice_prefix path (l ++ [c]) []).
    + apply chars_inj. by rewrite chars_of_list.
    + by rewrite app_nil_r.
Qed.

Lemma base_loop_suffix_idle suffix l st :
  CHAR_FORWARD_SLASH ∉ l → firstNonSlashEnd st ≠ -1 → extIdx st < 0 →
  base_loop_suffix suffix (rev l) st = st.
Proof.
  induction l as [|c l IH] using rev_ind; intros Hl He Hx; [done|].
  rewrite rev_unit. simpl. unfold base_step_suffix.
  destruct (Ascii.eqb_spec c CHAR_FORWARD_SLASH) as [->|_].
  - exfalso. apply Hl, elem_of_app. right. by left.
  - replace (firstNonSlashEnd st =? -1) with false
      by (symmetry; by apply Z.eqb_neq).
    replace (0 <=? extIdx st) with false by (symmetry; apply Z.leb_gt; lia).
    apply IH; [|done|done]. intros ?. apply Hl, elem_of_app. by left.
Qed.

Lemma base_step_match (a sfx : list ascii) k c :
  (k < length sfx)%nat →
  sfx !! (length sfx - k - 1)%nat = Some c → c ≠ CHAR_FORWARD_SLASH →
  base_step_suffix (string_of_list_ascii sfx)
    (Z.of_nat (length a + (length sfx - k - 1))) c
    (match_state (length a) (length sfx) k)
  = inr (match_state (length a) (length sfx) (S k)).
Proof.
  intros Hk Hc Hns.
  unfold base_step_suffix.
  destruct (Ascii.eqb_spec c CHAR_FORWARD_SLASH) as [->|_]; [done|].
  assert (charCodeAt (string_of_list_ascii sfx)
            (Z.of_nat (length sfx) - Z.of_nat k - 1) = Some c) as Hget.
  { unfold charCodeAt. rewrite get_string_of_list.
    by replace (Z.to_nat _) with (length sfx - k - 1)%nat by lia. }
  unfold match_state.
  cbn [firstNonSlashEnd extIdx b_start b_end b_matchedSlash].
  destruct (Nat.eqb_spec k 0) as [->|Hk0];
    cbn [firstNonSlashEnd extIdx b_start b_end b_matchedSlash].
  - change (-1 =? -1) with true. cbv iota.
    cbn [firstNonSlashEnd extIdx b_start b_end b_matchedSlash].
    replace (0 <=? _) with true by (symmetry; apply Z.leb_le; lia).
    rewrite Hget, bool_decide_eq_true_2 by done.
    destruct (Nat.eqb_spec 1 (length sfx)) as [H1|H1].
    + replace (_ =? -1) with true by (symmetry; apply Z.eqb_eq; lia).
      replace (0 =? length sfx)%nat with false
        by (symmetry; apply Nat.eqb_neq; lia).
      cbn [Nat.eqb]. f_equal. f_equal; lia.
    + replace (_ =? -1) with false by (symmetry; apply Z.eqb_neq; lia).
      replace (0 =? length sfx)%nat with false
        by (symmetry; apply Nat.eqb_neq; lia).
      cbn [Nat.eqb]. f_equal. f_equal; lia.
  - replace (Z.of_nat (length a + length sfx) =? -1) with false
      by (symmetry; apply Z.eqb_neq; lia).
    cbv iota. cbn [firstNonSlashEnd extIdx b_start b_end b_matchedSlash].
    replace (0 <=? _) with true by (symmetry; apply Z.leb_le; lia).
    rewrite Hget, bool_decide_eq_true_2 by done.
    replace (k =? length sfx)%nat with false
      by (symmetry; apply Nat.eqb_neq; lia).
    destruct (Nat.eqb_spec (S k) (length sfx)) as [H1|H1].
    + replace (_ =? -1) with true by (symmetry; apply Z.eqb_eq; lia).
      cbn [Nat.eqb]. f_equal. f_equal; lia.
    + replace (_ =? -1) with false by (symmetry; apply Z.eqb_neq; lia).
      cbn [Nat.eqb]. f_equal. f_equal; lia.
Qed.

Lemma base_loop_match (a sfx : list ascii) j :
  (j ≤ length sfx)%nat → sfx ≠ [] → CHAR_FORWARD_SLASH ∉ sfx →
  base_loop_suffix (string_of_list_ascii sfx)
    (rev (take (length a + j) (a ++ sfx)))
    (match_state (length a) (length sfx) (length sfx - j))
  = base_loop_suffix (string_of_list_ascii sfx) (rev a)
      (match_state (length a) (length sfx) (length sfx)).
Proof.
  intros Hj Hne Hns. induction j as [|j IH].
  - rewrite Nat.add_0_r, Nat.sub_0_r, take_app_length. done.
  - destruct (lookup_lt_is_Some_2 sfx j) as [c Hc]; [lia|].
    assert ((a ++ sfx) !! (length a + j)%nat = Some c) as Hc'.
    { by rewrite lookup_app_r, Nat.add_comm, Nat.add_sub by lia. }
    replace (length a + S j)%nat with (S (length a + j)) by lia.
    rewrite (take_S_r _ _ _ Hc'), rev_unit. simpl.
    rewrite length_rev, length_take_le by (rewrite length_app; lia).
    replace j with (length sfx - (length sfx - S j) - 1)%nat at 1 by lia.
    rewrite base_step_match.
    + replace (S (length sfx - S j)) with (length sfx - j)%nat by lia.
      apply IH. lia.
    + lia.
    + by replace (length sfx - (length sfx - S j) - 1)%nat with j by lia.
    + intros ->. apply Hns. by eapply list_elem_of_lookup_2.
Qed.

Lemma append_empty_r (s : string) : (s +:+ "")%string = s.
Proof. apply chars_inj. by rewrite chars_app, app_nil_r. Qed.

(** For a name without slashes, [basename] with the name's own extension
    as suffix takes exactly that extension off. *)
Lemma basename_strips_extension path :
  CHAR_FORWARD_SLASH ∉ chars path →
  (basename path (extname path) +:+ extname path)%string = path.
Proof.
  intros Hns.
  destruct (extname_shape path) as [->|(a & r & t & Hl & -> & Hr & Ht & Ha)].
  - by rewrite basename_no_suffix, append_empty_r.
  - assert (t = []) as ->.
    { apply (slash_nil _ (chars path)); [done|done|].
      rewrite Hl. intros x Hx. apply elem_of_app. right. right.
      apply elem_of_app. by right. }
    rewrite app_nil_r in Hl.
    set (sfx := CHAR_DOT :: r) in *.
    change (String CHAR_DOT (string_of_list_ascii r))
      with (string_of_list_ascii sfx).
    assert ((CHAR_FORWARD_SLASH ∉ a) ∧ (CHAR_FORWARD_SLASH ∉ sfx))
      as [Hnsa Hnss].
    { rewrite Hl in Hns. split; intros ?; apply Hns, elem_of_app; auto. }
    assert (len (string_of_list_ascii sfx) = Z.of_nat (length sfx)) as Hlen.
    { unfold len. by rewrite <- length_chars, chars_of_list. }
    assert (len path = Z.of_nat (length a + length sfx)) as Hlenp.
    { unfold len. by rewrite <- length_chars, Hl, length_app. }
    assert ((0 < length a)%nat) as Hpos by (destruct a; [done|simpl; lia]).
    unfold basename. rewrite Hlen, Hlenp.
    replace (0 <? _) with true by (symmetry; apply Z.ltb_lt; simpl; lia).
    replace (_ <=? _) with true by (symmetry; apply Z.leb_le; lia).
    cbn [andb].
    replace (String.eqb _ _) with false.
    2:{ symmetry. apply String.eqb_neq. intros Heq.
        apply (f_equal len) in Heq. rewrite Hlen, Hlenp in Heq. lia. }
    set (st := base_loop_suffix _ _ _).
    assert (st = match_state (length a) (length sfx) (length sfx)) as ->.
    { subst st. rewrite Hl.
      rewrite <- (take_ge (a ++ sfx) (length a + length sfx))
        by (rewrite length_app; lia).
      pose proof (base_loop_match a sfx (length sfx)) as Hm.
      rewrite Nat.sub_diag in Hm. unfold match_state at 1 in Hm.
      replace (0 =? length sfx)%nat with false in Hm by done.
      change (0 =? 0)%nat with true in Hm. cbv iota in Hm.
      replace (Z.of_nat (length sfx) - Z.of_nat 0 - 1)
        with (Z.of_nat (length sfx) - 1) in Hm by lia.
      rewrite Hm by done.
      apply base_loop_suffix_idle; [done| |]; unfold match_state; simpl; lia. }
    unfold match_state. rewrite Nat.eqb_refl.
    cbn [b_start b_end firstNonSlashEnd].
    replace (0 =? _) with false by (symmetry; apply Z.eqb_neq; lia).
    replace (_ =? -1) with false by (symmetry; apply Z.eqb_neq; lia).
    rewrite (slice_prefix path a sfx Hl).
    apply chars_inj. by rewrite chars_app, !chars_of_list.
Qed.

End PathFacts.

(** ** The display URL *)
Section DisplayUrl.

Import Js Path.

Implicit Types (env : Env) (w : World) (part : Part).

(** The suffix the route takes off is the extension of the original name,
    although it reads it from the storage name. *)
Lemma display_url_original env part :
  display_url env part
  = ("https://www."
     +:+ basename (part_originalname part) (extname (part_originalname part))
     +:+ ".com")%string.
Proof. unfold display_url. by rewrite extname_storage_filename. Qed.

(** C9. For a valid upload whose store write goes through, the [url] of the
    record is the fixed template around the original file name with its
    extension taken off by [path.basename], and [imageUrl] is the upload
    location followed by the generated name, which is the clock reading
    followed by that extension.  For an original name without slashes,
    what [basename] leaves is the name without its extension.  For
    [cat.png] the [url] is [https://www.cat.com] and the [imageUrl] ends in
    [/uploads/<generated-name>.png]. *)
Theorem C9_display_url_strips_extension env part w :
  reachable env = true →
  absent (generatedId env) (imageCollection w) →
  ∃ w' image,
    post_upload env (Some part) w = (inr (), w')
    ∧ Responded (MkResponse 201 (Uploaded "Image uploaded" image)) ∈ trace w'
    ∧ image ∈ imageCollection w'
    ∧ url image
      = JStr ("https://www."
              +:+ basename (part_originalname part)
                    (extname (part_originalname part))
              +:+ ".com")
    ∧ imageUrl image
      = JStr ("advertise/uploads/"
              +:+ pretty (now env) +:+ extname (part_originalname part))
    ∧ (CHAR_FORWARD_SLASH ∉ chars (part_originalname part) →
       (basename (part_originalname part) (extname (part_originalname part))
        +:+ extname (part_originalname part))%string
       = part_originalname part)
    ∧ (part_originalname part = "cat.png"%string →
       url image = JStr "https://www.cat.com"
       ∧ imageUrl image
         = JStr ("advertise/uploads/" +:+ pretty (now env) +:+ ".png")).
Proof.
  intros Hup Hfresh.
  eexists _, (record env part).
  split; [exact (post_upload_success env part w Hup Hfresh)|].
  cbn [trace imageCollection].
  split; [|split; [|split; [|split; [|split]]]].
  - apply elem_of_app. right. do 2 right. by left.
  - apply elem_of_app. right. by left.
  - unfold record. cbn [url]. by rewrite display_url_original.
  - reflexivity.
  - apply basename_strips_extension.
  - intros Hname. unfold record. cbn [url imageUrl].
    rewrite display_url_original. unfold location, storage_filename.
    rewrite Hname. split; reflexivity.
Qed.

Lemma C9_witness :
  reachable Samples.env_up = true
  ∧ absent (generatedId Samples.env_up) (imageCollection empty_world)
  ∧ ∃ w' image,
      post_upload Samples.env_up (Some Samples.cat_png) empty_world
      = (inr (), w')
      ∧ image ∈ imageCollection w'
      ∧ url image = JStr "https://www.cat.com"
      ∧ imageUrl image = JStr "advertise/uploads/1700000000000.png".
Proof.
  assert (absent (generatedId Samples.env_up) (imageCollection empty_world))
    as Hfresh by (apply absent_existsb; reflexivity).
  split; [reflexivity|]. split; [exact Hfresh|].
  destruct (C9_display_url_strips_extension Samples.env_up Samples.cat_png
              empty_world eq_refl Hfresh)
    as (w' & image & Hrun & _ & Hin & _ & _ & _ & Hcat).
  exists w', image. split; [exact Hrun|]. split; [exact Hin|].
  exact (Hcat eq_refl).
Defined.

End DisplayUrl.


(** ** Identifiers on the wire, and an instance that hears its own event *)
Section Loopback.

Import Js.

Implicit Types (env : Env) (w : World) (part : Part).

Lemma hex_byte_roundtrip c :
  ascii_of_N (16 * hex_val (hex_digit (N_of_ascii c / 16))
              + hex_val (hex_digit (N_of_ascii c mod 16))) = c
  ∧ is_hex (hex_digit (N_of_ascii c / 16)) = true
  ∧ is_hex (hex_digit (N_of_ascii c mod 16)) = true.
Proof. destruct c as [[] [] [] [] [] [] [] []]; vm_compute; done. Qed.

Lemma fromHex_toHexString id : fromHex (toHexString id) = id.
Proof.
  induction id as [|c id IH]; [done|].
  cbn [toHexString fromHex]. rewrite IH.
  by destruct (hex_byte_roundtrip c) as (-> & _).
Qed.

Lemma toHexString_is_hex id : forallb is_hex (chars (toHexString id)) = true.
Proof.
  induction id as [|c id IH]; [done|].
  cbn [toHexString]. unfold chars in *. cbn [list_ascii_of_string forallb].
  destruct (hex_byte_roundtrip c) as (_ & -> & ->). exact IH.
Qed.

Lemma length_toHexString id :
  String.length (toHexString id) = (2 * String.length id)%nat.
Proof. induction id as [|c id IH]; [done|]. cbn [toHexString String.length]. lia. Qed.

(** The identifier the consumer builds from the [imageId] of an event is
    the identifier the event was made from. *)
Lemma new_ObjectId_toJSON generated id :
  String.length id = 12%nat →
  new_ObjectId generated (toJSON id) = Some id.
Proof.
  intros Hlen. unfold toJSON, new_ObjectId, isValid, checkForHexRegExp.
  rewrite length_toHexString, Hlen, toHexString_is_hex. simpl.
  by rewrite fromHex_toHexString.
Qed.

(** Had the event of an upload reached the consumer of an instance that
    shares the store of the uploader, the consumer would have built the
    identifier of the record that is already there, the insert would have
    been refused, and the delivery would have stayed unacknowledged. *)
Lemma loopback_is_refused env env' part w w' tag :
  String.length (generatedId env) = 12%nat →
  reachable env' = true →
  post_upload env (Some part) w = (inr (), w') →
  consumeImageUploadedMessage env' (MkMessage tag (announcement env part)) w'
  = (inl (MongoError DuplicateKey), w').
Proof.
  intros Hlen Hup' Hrun.
  pose proof (post_upload_inr _ _ _ _ Hrun) as [Hup Hfresh].
  rewrite (post_upload_success _ _ _ Hup Hfresh) in Hrun.
  injection Hrun as <-.
  unfold consumeImageUploadedMessage, announcement. unfold_eff.
  cbn [content]. rewrite new_ObjectId_toJSON by done.
  cbn [imageCollection]. unfold insertOne. cbn [_id default].
  rewrite Hup'. cbn [negb].
  rewrite existsb_has_id_app. cbn [existsb]. unfold has_id at 2, record.
  cbn [_id]. rewrite bool_decide_eq_true_2 by done.
  by rewrite orb_true_r.
Qed.

(** A delivery whose consumer throws leaves the message among the
    unacknowledged ones of the channel. *)
Lemma failed_delivery_stays_unacked env queue w msg b e w' :
  deliver queue (messageChannel w) = Some (msg, b) →
  on_delivery env queue w = (inl e, w') →
  msg ∈ unacked (messageChannel w').
Proof.
  intros Hd. unfold on_delivery. rewrite Hd.
  set (w0 := MkWorld _ _ _ _). intros Hrun.
  destruct (consume_cases env msg w0)
    as [(?&?&?&?&?&?&_&_&_&Hok)|(e' & Hthrow & _)]; [congruence|].
  rewrite Hthrow in Hrun. injection Hrun as _ <-.
  unfold deliver in Hd.
  destruct (queues (messageChannel w) !! queue) as [[|c rest]|];
    try discriminate.
  injection Hd as <- <-. simpl. apply elem_of_app. right. by left.
Qed.

(** An acknowledged delivery is no longer among them. *)
Lemma acked_delivery_is_settled env msg w w' :
  consumeImageUploadedMessage env msg w = (inr (), w') →
  ∀ m, m ∈ unacked (messageChannel w') → deliveryTag m ≠ deliveryTag msg.
Proof.
  intros Hrun m.
  destruct (consume_cases env msg w)
    as [(?&?&?&?&?&?&_&_&_&Hok)|(e' & Hthrow & _)]; [|congruence].
  rewrite Hok in Hrun. injection Hrun as <-. simpl.
  by intros [? _]%list_elem_of_filter.
Qed.

End Loopback.


(** * Further properties of the routes, the consumer and the start-up *)

Import Observe.

(** ** More on the query routes *)
Section QueryMore.

Implicit Types (env : Env) (w : World).

Lemma find_has_id id coll doc :
  List.find (has_id id) coll = Some doc → doc ∈ coll ∧ _id doc = Some id.
Proof.
  intros H. apply find_some in H as [Hin Hid].
  split; [by apply list_elem_of_In|].
  unfold has_id in Hid. by apply bool_decide_eq_true in Hid.
Qed.

Lemma get_image_200 env s id doc w :
  reachable env = true →
  new_ObjectId (generatedId env) (JStr s) = Some id →
  List.find (has_id id) (imageCollection w) = Some doc →
  get_image env (Some s) w
  = (inr (),
     MkWorld (imageCollection w) (uploadDir w) (messageChannel w)
       (trace w ++ [Responded (MkResponse 200 (Image doc))])).
Proof.
  intros Hup Hid Hfind.
  unfold get_image. unfold_eff. cbn [query_value]. rewrite Hid.
  unfold findOne. rewrite Hup, Hfind. reflexivity.
Qed.

(** X1. A well-formed [id] whose record is in the store: the answer is 200
    with the first record under that identifier, and nothing else
    happens. *)
Theorem get_image_found env s id doc w :
  reachable env = true →
  new_ObjectId (generatedId env) (JStr s) = Some id →
  List.find (has_id id) (imageCollection w) = Some doc →
  get_image env (Some s) w
  = (inr (),
     MkWorld (imageCollection w) (uploadDir w) (messageChannel w)
       (trace w ++ [Responded (MkResponse 200 (Image doc))]))
  ∧ doc ∈ imageCollection w ∧ _id doc = Some id.
Proof.
  intros Hup Hid Hfind. split; [|by apply find_has_id].
  by apply get_image_200 with id.
Qed.

Lemma get_image_found_witness :
  get_image Samples.env_up (Some "6162636465666768696a6b6c"%string)
    Samples.world_after_first
  = (inr (),
     MkWorld [Samples.replica] ∅ empty_broker
       [Inserted Samples.replica; Acked 1;
        Responded (MkResponse 200 (Image Samples.replica))]).
Proof.
  apply (get_image_found Samples.env_up "6162636465666768696a6b6c"
           "abcdefghijkl" Samples.replica Samples.world_after_first);
    reflexivity.
Defined.

(** X2. A well-formed [id] that no record of the store has: the answer is
    404 and nothing else happens. *)
Theorem get_image_absent_is_404 env s id w :
  reachable env = true →
  new_ObjectId (generatedId env) (JStr s) = Some id →
  absent id (imageCollection w) →
  get_image env (Some s) w
  = (inr (),
     MkWorld (imageCollection w) (uploadDir w) (messageChannel w)
       (trace w ++ [Responded (MkResponse 404 StatusText)])).
Proof.
  intros Hup Hid Habs. unfold get_image. unfold_eff. cbn [query_value].
  rewrite Hid, Hup, (absent_findOne _ _ Habs). reflexivity.
Qed.

Lemma get_image_absent_is_404_witness :
  get_image Samples.env_up (Some "000000000000000000000000"%string)
    Samples.world_after_first
  = (inr (),
     MkWorld [Samples.replica] ∅ empty_broker
       [Inserted Samples.replica; Acked 1;
        Responded (MkResponse 404 StatusText)]).
Proof.
  apply (get_image_absent_is_404 Samples.env_up "000000000000000000000000"
           (fromHex "000000000000000000000000") Samples.world_after_first);
    [reflexivity|reflexivity|].
  apply absent_existsb. reflexivity.
Defined.

Lemma get_image_store env id w :
  imageCollection (snd (get_image env id w)) = imageCollection w.
Proof.
  unfold get_image. unfold_eff.
  destruct (new_ObjectId _ _) as [oid|]; simpl; [|done].
  by destruct (findOne _ _ _) as [f|[image|]].
Qed.

Lemma get_images_store env w :
  imageCollection (snd (get_images env w)) = imageCollection w.
Proof.
  unfold get_images. unfold_eff.
  by destruct (find_toArray _ _) as [f|images].
Qed.

(** X3. The two query routes only read: whatever the request and whatever
    the outcome, the store, the upload directory and the channel are as
    they were, and nothing is published or acknowledged. *)
Theorem query_routes_only_read env id w :
  (imageCollection (snd (get_image env id w)) = imageCollection w
   ∧ uploadDir (snd (get_image env id w)) = uploadDir w
   ∧ messageChannel (snd (get_image env id w)) = messageChannel w
   ∧ publications (trace (snd (get_image env id w))) = publications (trace w))
  ∧ (imageCollection (snd (get_images env w)) = imageCollection w
     ∧ uploadDir (snd (get_images env w)) = uploadDir w
     ∧ messageChannel (snd (get_images env w)) = messageChannel w
     ∧ publications (trace (snd (get_images env w)))
       = publications (trace w)).
Proof.
  split.
  - unfold get_image. unfold_eff.
    destruct (new_ObjectId _ _) as [oid|]; simpl; [|done].
    destruct (findOne _ _ _) as [f|[image|]]; simpl; [done| |];
      unfold publications; by rewrite omap_app, app_nil_r.
  - unfold get_images. unfold_eff.
    destruct (find_toArray _ _) as [f|images]; simpl; [done|].
    unfold publications. by rewrite omap_app, app_nil_r.
Qed.

(** [GET /images] answers 200 with every record of the store, in the order
    of insertion, when the store answers; when it does not, the route
    throws and no response is sent. *)
Lemma get_images_lists_the_store env w :
  (reachable env = true →
   get_images env w
   = (inr (),
      MkWorld (imageCollection w) (uploadDir w) (messageChannel w)
        (trace w ++
           [Responded (MkResponse 200 (Images (imageCollection w)))])))
  ∧ (reachable env = false →
     get_images env w = (inl (MongoError NetworkError), w)).
Proof.
  unfold get_images, find_toArray. unfold_eff.
  split; intros ->; reflexivity.
Qed.

End QueryMore.

(** ** More on the upload route *)
Section UploadMore.

Implicit Types (env : Env) (w : World) (part : Part).

Lemma find_app_absent id coll doc :
  absent id coll → _id doc = Some id →
  List.find (has_id id) (coll ++ [doc]) = Some doc.
Proof.
  intros Habs%absent_existsb%existsb_has_id_false Hid.
  induction coll as [|d coll IH]; simpl in *.
  - unfold has_id. by rewrite bool_decide_eq_true_2.
  - destruct (has_id id d); [discriminate|]. by apply IH.
Qed.

(** X5. After an upload that went through, [GET /images] answers 200 with
    the records that were there followed by the record of the upload. *)
Theorem upload_then_list env env' part w w' :
  post_upload env (Some part) w = (inr (), w') →
  reachable env' = true →
  get_images env' w'
  = (inr (),
     MkWorld (imageCollection w') (uploadDir w') (messageChannel w')
       (trace w' ++
          [Responded
             (MkResponse 200
                (Images (imageCollection w ++ [record env part])))])).
Proof.
  intros Hrun Hup'.
  pose proof (post_upload_inr _ _ _ _ Hrun) as [Hup Hfresh].
  rewrite (post_upload_success _ _ _ Hup Hfresh) in Hrun.
  injection Hrun as <-.
  unfold get_images, find_toArray. unfold_eff. by rewrite Hup'.
Qed.

Lemma upload_then_list_witness :
  get_images Samples.env_same_ms
    (snd (post_upload Samples.env_up (Some Samples.cat_png) empty_world))
  = (inr (),
     MkWorld
       (imageCollection
          (snd (post_upload Samples.env_up (Some Samples.cat_png) empty_world)))
       (uploadDir
          (snd (post_upload Samples.env_up (Some Samples.cat_png) empty_world)))
       (messageChannel
          (snd (post_upload Samples.env_up (Some Samples.cat_png) empty_world)))
       (trace
          (snd (post_upload Samples.env_up (Some Samples.cat_png) empty_world))
        ++ [Responded
              (MkResponse 200
                 (Images (imageCollection empty_world
                          ++ [record Samples.env_up Samples.cat_png])))])).
Proof.
  apply (upload_then_list Samples.env_up Samples.env_same_ms Samples.cat_png
           empty_world); reflexivity.
Defined.

(** X6. After an upload that went through, asking [GET /image] for the
    hexadecimal form of the [_id] in the response gives 200 with the record
    of the upload. *)
Theorem upload_then_get env env' part w w' :
  String.length (generatedId env) = 12%nat →
  post_upload env (Some part) w = (inr (), w') →
  reachable env' = true →
  get_image env' (Some (toHexString (generatedId env))) w'
  = (inr (),
     MkWorld (imageCollection w') (uploadDir w') (messageChannel w')
       (trace w' ++ [Responded (MkResponse 200 (Image (record env part)))])).
Proof.
  intros Hlen Hrun Hup'.
  pose proof (post_upload_inr _ _ _ _ Hrun) as [Hup Hfresh].
  rewrite (post_upload_success _ _ _ Hup Hfresh) in Hrun.
  injection Hrun as <-.
  eapply get_image_200; [done| |].
  - by apply (new_ObjectId_toJSON _ _ Hlen).
  - cbn [imageCollection]. by apply find_app_absent.
Qed.

Lemma upload_then_get_witness :
  String.length (generatedId Samples.env_up) = 12%nat
  ∧ get_image Samples.env_same_ms (Some "6162636465666768696a6b6c"%string)
      (snd (post_upload Samples.env_up (Some Samples.cat_png) empty_world))
    = (inr (),
       MkWorld
         (imageCollection
            (snd (post_upload Samples.env_up (Some Samples.cat_png)
                    empty_world)))
         (uploadDir
            (snd (post_upload Samples.env_up (Some Samples.cat_png)
                    empty_world)))
         (messageChannel
            (snd (post_upload Samples.env_up (Some Samples.cat_png)
                    empty_world)))
         (trace
            (snd (post_upload Samples.env_up (Some Samples.cat_png)
                    empty_world))
          ++ [Responded
                (MkResponse 200
                   (Image (record Samples.env_up Samples.cat_png)))])).
Proof.
  split; [reflexivity|].
  apply (upload_then_get Samples.env_up Samples.env_same_ms Samples.cat_png
           empty_world); reflexivity.
Defined.

Lemma post_upload_throws env part w :
  reachable env = false ∨ ¬ absent (generatedId env) (imageCollection w) →
  ∃ f,
    post_upload env (Some part) w
    = (inl (MongoError f),
       MkWorld (imageCollection w)
         (<[storage_filename env (part_originalname part)
            := part_content part]> (uploadDir w))
         (messageChannel w)
         (trace w ++ [Stored (storage_filename env (part_originalname part))])).
Proof.
  intros Hfail.
  unfold post_upload, upload_single, upload_route. unfold_eff.
  cbn [originalname filename imageCollection uploadDir messageChannel trace].
  unfold insertOne. cbn [_id default].
  destruct (reachable env) eqn:Hup; cbn [negb].
  - destruct Hfail as [?|Hne]; [done|].
    destruct (existsb _ _) eqn:Hex.
    + by exists DuplicateKey.
    + exfalso. by apply Hne, absent_existsb.
  - by exists NetworkError.
Qed.

(** X7. An upload whose store write fails, because the store does not
    answer or because the generated identifier is taken, throws after the
    storage engine has written the file: the file stays in the upload
    directory, and there is no record, no response and no event. *)
Theorem upload_store_failure env part w :
  reachable env = false ∨ ¬ absent (generatedId env) (imageCollection w) →
  ∃ f,
    post_upload env (Some part) w
    = (inl (MongoError f),
       MkWorld (imageCollection w)
         (<[storage_filename env (part_originalname part)
            := part_content part]> (uploadDir w))
         (messageChannel w)
         (trace w ++ [Stored (storage_filename env (part_originalname part))])).
Proof. apply post_upload_throws. Qed.

Lemma upload_store_failure_witness :
  ∃ f,
    post_upload Samples.env_down (Some Samples.cat_png) empty_world
    = (inl (MongoError f),
       MkWorld [] {[ "1700000000000.png"%string := "first payload"%string ]}
         empty_broker [Stored "1700000000000.png"]).
Proof.
  destruct (upload_store_failure Samples.env_down Samples.cat_png empty_world
              (or_introl eq_refl)) as [f Hf].
  exists f. exact Hf.
Defined.

Lemma responses_app t t' : responses (t ++ t') = responses t ++ responses t'.
Proof. apply omap_app. Qed.

Lemma responses_snoc c u b t r :
  responses (trace (MkWorld c u b (t ++ [Responded r])))
  = responses t ++ [r].
Proof. cbn [trace]. by rewrite responses_app. Qed.

Lemma post_upload_none env w :
  post_upload env None w
  = (inr (),
     MkWorld (imageCollection w) (uploadDir w) (messageChannel w)
       (trace w ++ [Responded (MkResponse 400 (Error "No image uploaded"))])).
Proof. reflexivity. Qed.

(** X8. Every route answers at most once: a run that returns has sent
    exactly one response, a run that throws has sent none. *)
Theorem routes_answer_once env id (file : option Part) w :
  (∀ w', get_images env w = (inr (), w') →
         ∃ r, responses (trace w') = responses (trace w) ++ [r])
  ∧ (∀ e w', get_images env w = (inl e, w') →
             responses (trace w') = responses (trace w))
  ∧ (∀ w', get_image env id w = (inr (), w') →
           ∃ r, responses (trace w') = responses (trace w) ++ [r])
  ∧ (∀ e w', get_image env id w = (inl e, w') →
             responses (trace w') = responses (trace w))
  ∧ (∀ w', post_upload env file w = (inr (), w') →
           ∃ r, responses (trace w') = responses (trace w) ++ [r])
  ∧ (∀ e w', post_upload env file w = (inl e, w') →
             responses (trace w') = responses (trace w)).
Proof.
  repeat split.
  - unfold get_images. unfold_eff.
    destruct (find_toArray _ _) as [f|images]; simpl; [discriminate|].
    intros w' [= <-]. eexists. by rewrite responses_snoc.
  - unfold get_images. unfold_eff.
    destruct (find_toArray _ _) as [f|images]; simpl; [|discriminate].
    by intros e w' [= _ <-].
  - unfold get_image. unfold_eff.
    destruct (new_ObjectId _ _) as [oid|]; simpl; [|discriminate].
    destruct (findOne _ _ _) as [f|[image|]]; simpl; [discriminate| |];
      intros w' [= <-]; eexists; by rewrite responses_snoc.
  - unfold get_image. unfold_eff.
    destruct (new_ObjectId _ _) as [oid|]; simpl; [|by intros e w' [= _ <-]].
    destruct (findOne _ _ _) as [f|[image|]]; simpl;
      [by intros e w' [= _ <-]|discriminate|discriminate].
  - destruct file as [part|].
    + intros w' Hrun.
      pose proof (post_upload_inr _ _ _ _ Hrun) as [Hup Hfresh].
      rewrite (post_upload_success _ _ _ Hup Hfresh) in Hrun.
      injection Hrun as <-. eexists.
      cbn [trace]. by rewrite !responses_app.
    + rewrite post_upload_none. intros w' [= <-]. eexists.
      by rewrite responses_snoc.
  - destruct file as [part|].
    + intros e w' Hrun.
      destruct (reachable env) eqn:Hup.
      * destruct (existsb (has_id (generatedId env)) (imageCollection w))
          eqn:Hex.
        -- destruct (post_upload_throws env part w) as [f Hf].
           { right. intros H%absent_existsb. congruence. }
           rewrite Hf in Hrun. injection Hrun as _ <-.
           cbn [trace]. by rewrite responses_app, app_nil_r.
        -- apply absent_existsb in Hex.
           rewrite (post_upload_success _ _ _ Hup Hex) in Hrun. discriminate.
      * destruct (post_upload_throws env part w) as [f Hf]; [by left|].
        rewrite Hf in Hrun. injection Hrun as _ <-.
        cbn [trace]. by rewrite responses_app, app_nil_r.
    + rewrite post_upload_none. discriminate.
Qed.

End UploadMore.

(** ** More on the consumer *)
Section ConsumerMore.

Implicit Types (env : Env) (w v : World) (part : Part) (msg : Message).

Lemma unique_ids_insertOne reachable generated doc coll doc' id coll' :
  unique_ids coll →
  insertOne reachable generated doc coll = inr (doc', id, coll') →
  unique_ids coll'.
Proof.
  unfold unique_ids. intros Hnd (_ & _ & -> & Hno & ->)%insertOne_inr.
  rewrite fmap_app. cbn. apply NoDup_app. split; [done|]. split.
  - intros x Hx [->|[]%elem_of_nil]%elem_of_cons.
    apply list_elem_of_fmap in Hx as (d & Hd & Hin).
    apply absent_existsb in Hno. by apply (Hno d Hin).
  - apply NoDup_singleton.
Qed.

(** A delivery that gets through every step. *)
Lemma consume_success env msg imageId imageUrl url id w :
  content msg = JsonObj imageId imageUrl url →
  new_ObjectId (generatedId env) imageId = Some id →
  reachable env = true →
  absent id (imageCollection w) →
  consumeImageUploadedMessage env msg w
  = (inr (),
     MkWorld (imageCollection w ++ [MkDoc (Some id) imageUrl None url])
       (uploadDir w) (ack msg (messageChannel w))
       (trace w ++ [Inserted (MkDoc (Some id) imageUrl None url);
                    Acked (deliveryTag msg)])).
Proof.
  intros Hc Hid Hup Habs%absent_existsb.
  unfold consumeImageUploadedMessage. unfold_eff. rewrite Hc. cbn beta iota.
  rewrite Hid. cbn beta iota. unfold insertOne. simpl.
  rewrite Hup. simpl. rewrite Habs. simpl. by rewrite <- app_assoc.
Qed.

(** X9. No handler ever leaves two records with the same [_id] in the
    store: if the identifiers are pairwise different before a request or a
    delivery, they are so after it, whatever its outcome. *)
Theorem handlers_keep_ids_unique env id (file : option Part) msg w :
  unique_ids (imageCollection w) →
  unique_ids (imageCollection (snd (get_images env w)))
  ∧ unique_ids (imageCollection (snd (get_image env id w)))
  ∧ unique_ids (imageCollection (snd (post_upload env file w)))
  ∧ unique_ids (imageCollection (snd (consumeImageUploadedMessage env msg w))).
Proof.
  intros Hnd.
  rewrite get_images_store, get_image_store.
  split; [done|]. split; [done|]. split.
  - destruct file as [part|]; [|done].
    unfold post_upload, upload_single, upload_route. unfold_eff.
    cbn [originalname filename imageCollection uploadDir messageChannel trace].
    destruct (insertOne _ _ _ _) as [f|[[doc oid] coll]] eqn:Hins; [done|].
    cbn. by eapply unique_ids_insertOne.
  - destruct (consume_cases env msg w)
      as [(?&?&?&?&doc&coll&_&_&Hins&->)|(e & -> & _)]; [|done].
    cbn. by eapply unique_ids_insertOne.
Qed.

Lemma handlers_keep_ids_unique_witness :
  unique_ids (imageCollection Samples.world_after_first)
  ∧ unique_ids
      (imageCollection
         (snd (post_upload Samples.env_same_ms (Some Samples.cat_png)
                 Samples.world_after_first))).
Proof.
  assert (unique_ids (imageCollection Samples.world_after_first)) as H.
  { unfold unique_ids. cbn. apply NoDup_singleton. }
  split; [exact H|].
  apply (handlers_keep_ids_unique Samples.env_same_ms None
           (Some Samples.cat_png) Samples.first_delivery
           Samples.world_after_first H).
Defined.





(** X12. The event of an upload, delivered to an instance with a store of
    its own that answers and has no record under the identifier: the
    consumer writes a record with the [_id], the [imageUrl] and the [url]
    of the uploaded record and without its [uploadedAt], and then
    acknowledges. *)
Theorem replica_matches_upload env env' part w w' tag v :
  String.length (generatedId env) = 12%nat →
  post_upload env (Some part) w = (inr (), w') →
  reachable env' = true →
  absent (generatedId env) (imageCollection v) →
  last (publications (trace w')) = Some (announcement env part)
  ∧ consumeImageUploadedMessage env'
      (MkMessage tag (announcement env part)) v
    = (inr (),
       MkWorld
         (imageCollection v
          ++ [MkDoc (_id (record env part)) (imageUrl (record env part))
                None (url (record env part))])
         (uploadDir v)
         (ack (MkMessage tag (announcement env part)) (messageChannel v))
         (trace v
          ++ [Inserted
                (MkDoc (_id (record env part)) (imageUrl (record env part))
                   None (url (record env part)));
              Acked tag])).
Proof.
  intros Hlen Hrun Hup' Habs.
  pose proof (post_upload_inr _ _ _ _ Hrun) as [Hup Hfresh].
  rewrite (post_upload_success _ _ _ Hup Hfresh) in Hrun.
  injection Hrun as <-. split.
  - cbn [trace]. unfold publications. rewrite omap_app. cbn.
    by rewrite last_snoc.
  - unfold record. cbn [_id Mongo.imageUrl Mongo.url].
    apply (consume_success env' (MkMessage tag (announcement env part))
             (toJSON (generatedId env)) (JStr (location env part))
             (JStr (display_url env part)) (generatedId env) v); try done.
    by apply new_ObjectId_toJSON.
Qed.

Lemma replica_matches_upload_witness :
  String.length (generatedId Samples.env_up) = 12%nat
  ∧ imageCollection
      (snd (consumeImageUploadedMessage Samples.env_same_ms
              (MkMessage 7 (announcement Samples.env_up Samples.cat_png))
              empty_world))
    = [Samples.replica].
Proof.
  split; [reflexivity|].
  destruct (replica_matches_upload Samples.env_up Samples.env_same_ms
              Samples.cat_png empty_world
              (snd (post_upload Samples.env_up (Some Samples.cat_png)
                      empty_world))
              7 empty_world eq_refl eq_refl eq_refl) as [_ ->].
  - apply absent_existsb. reflexivity.
  - reflexivity.
Defined.

End ConsumerMore.

(** ** More on the channel *)
Section ChannelMore.

Implicit Types (env : Env) (w : World) (part : Part) (b : Broker).

Lemma declare_lookup q (qs : gmap string (list Content)) :
  declare q qs !! q = Some (default [] (qs !! q)).
Proof.
  unfold declare. destruct (qs !! q) eqn:H; simpl; [done|].
  apply lookup_insert_eq.
Qed.

Lemma declare_other q q' (qs : gmap string (list Content)) :
  q ≠ q' → declare q qs !! q' = qs !! q'.
Proof.
  intros Hne. unfold declare. destruct (qs !! q); [done|].
  by apply lookup_insert_ne.
Qed.

(** The wiring, when the exchange is not there as a direct exchange. *)
Lemma startMicroservice_shape w :
  exchanges (messageChannel w) !! "image-uploaded"%string ≠ Some Direct →
  startMicroservice w
  = (inr ("amq.gen-" +:+ pretty (generated (messageChannel w)))%string,
     MkWorld (imageCollection w) (uploadDir w)
       (MkBroker
          (<["image-uploaded"%string := Fanout]> (exchanges (messageChannel w)))
          (declare ("amq.gen-" +:+ pretty (generated (messageChannel w)))
             (queues (messageChannel w)))
          ((("amq.gen-" +:+ pretty (generated (messageChannel w)))%string,
            "image-uploaded"%string, ""%string)
           :: bindings (messageChannel w))
          (("amq.gen-" +:+ pretty (generated (messageChannel w)))%string
           :: consumers (messageChannel w))
          (generated (messageChannel w) + 1)%N
          (unacked (messageChannel w))
          (deliveries (messageChannel w)))
       (trace w)).
Proof.
  intros Hx. unfold startMicroservice. unfold_eff.
  set (b := messageChannel w) in *.
  set (q := ("amq.gen-" +:+ pretty (generated b))%string).
  assert (assertExchange "image-uploaded" Fanout b
          = Some (MkBroker (<["image-uploaded"%string := Fanout]> (exchanges b))
                    (queues b) (bindings b) (consumers b) (generated b)
                    (unacked b) (deliveries b))) as ->.
  { unfold assertExchange.
    destruct (exchanges b !! "image-uploaded"%string) as [[]|] eqn:Hl;
      [done| |done].
    rewrite bool_decide_eq_true_2 by done. rewrite insert_id by done.
    by destruct b. }
  cbn [messageChannel imageCollection uploadDir trace].
  unfold assertQueue. rewrite bool_decide_eq_true_2 by done.
  cbn [generated queues exchanges bindings consumers unacked deliveries
       messageChannel imageCollection uploadDir trace].
  fold q. unfold bindQueue.
  cbn [generated queues exchanges bindings consumers unacked deliveries].
  rewrite declare_lookup, lookup_insert_eq.
  cbn [messageChannel imageCollection uploadDir trace].
  unfold consume.
  cbn [generated queues exchanges bindings consumers unacked deliveries].
  rewrite declare_lookup. reflexivity.
Qed.

Lemma startMicroservice_refused w :
  exchanges (messageChannel w) !! "image-uploaded"%string = Some Direct →
  startMicroservice w = (inl ChannelError, w).
Proof.
  intros Hx. unfold startMicroservice. unfold_eff.
  unfold assertExchange. by rewrite Hx.
Qed.


(** X14. Two instances started on the same broker get two different
    queues, and a message published to the exchange [image-uploaded],
    under any routing key, is appended to both. *)
Theorem both_instances_get_a_copy w q1 w1 q2 w2 key c :
  startMicroservice w = (inr q1, w1) →
  startMicroservice w1 = (inr q2, w2) →
  q1 ≠ q2
  ∧ (∃ ms, queues (messageChannel w2) !! q1 = Some ms
           ∧ queues (publish "image-uploaded" key c (messageChannel w2)) !! q1
             = Some (ms ++ [c]))
  ∧ (∃ ms, queues (messageChannel w2) !! q2 = Some ms
           ∧ queues (publish "image-uploaded" key c (messageChannel w2)) !! q2
             = Some (ms ++ [c])).
Proof.
  intros H1 H2.
  assert (exchanges (messageChannel w) !! "image-uploaded"%string ≠ Some Direct)
    as Hx1.
  { intros Hx. rewrite (startMicroservice_refused w Hx) in H1.
    discriminate. }
  rewrite (startMicroservice_shape w Hx1) in H1. injection H1 as <- <-.
  rewrite startMicroservice_shape in H2
    by (cbn [messageChannel exchanges]; by rewrite lookup_insert_eq).
  injection H2 as <- <-.
  cbn [messageChannel generated queues exchanges bindings].
  set (n := generated (messageChannel w)).
  assert (("amq.gen-" +:+ pretty n)%string
          ≠ ("amq.gen-" +:+ pretty (n + 1)%N)%string) as Hne.
  { intros Heq. apply (inj (String.app "amq.gen-")) in Heq.
    apply (inj pretty) in Heq. lia. }
  split; [exact Hne|].
  unfold publish. cbn [queues]. rewrite !map_lookup_imap.
  unfold routed. rewrite bool_decide_eq_false_2 by done.
  cbn [exchanges]. rewrite lookup_insert_eq.
  unfold bound. cbn [bindings existsb]. split.
  - rewrite declare_other, declare_lookup by done.
    eexists. split; [reflexivity|]. cbn.
    rewrite (bool_decide_eq_false_2 (_ = _)) by done.
    by rewrite !bool_decide_eq_true_2 by done.
  - rewrite declare_lookup.
    eexists. split; [reflexivity|]. cbn.
    by rewrite !bool_decide_eq_true_2 by done.
Qed.

Lemma both_instances_get_a_copy_witness :
  "amq.gen-0"%string ≠ "amq.gen-1"%string
  ∧ (∃ ms,
       queues (messageChannel
                 (snd (startMicroservice (snd (startMicroservice empty_world)))))
         !! "amq.gen-0"%string = Some ms
       ∧ queues
           (publish "image-uploaded" "" Samples.event
              (messageChannel
                 (snd (startMicroservice
                         (snd (startMicroservice empty_world))))))
           !! "amq.gen-0"%string = Some (ms ++ [Samples.event])).
Proof.
  destruct (both_instances_get_a_copy empty_world "amq.gen-0"
              (snd (startMicroservice empty_world)) "amq.gen-1"
              (snd (startMicroservice (snd (startMicroservice empty_world))))
              "" Samples.event) as (Hne & Hq1 & _).
  - vm_compute. reflexivity.
  - vm_compute. reflexivity.
  - split; [exact Hne|exact Hq1].
Defined.

(** X15. Where the event of an upload goes: it is appended to the queue
    named [image-uploaded] when the broker has a queue of that name, and
    every other queue holds what it held; when there is no such queue the
    event is dropped. *)
Theorem upload_event_goes_to_the_named_queue env part w w' :
  post_upload env (Some part) w = (inr (), w') →
  queues (messageChannel w') !! "image-uploaded"%string
  = (λ ms, ms ++ [announcement env part])
      <$> queues (messageChannel w) !! "image-uploaded"%string
  ∧ (∀ q, q ≠ "image-uploaded"%string →
          queues (messageChannel w') !! q = queues (messageChannel w) !! q)
  ∧ dom (queues (messageChannel w')) = dom (queues (messageChannel w)).
Proof.
  intros Hrun.
  pose proof (post_upload_inr _ _ _ _ Hrun) as [Hup Hfresh].
  rewrite (post_upload_success _ _ _ Hup Hfresh) in Hrun.
  injection Hrun as <-. cbn [messageChannel].
  split; [apply sendToQueue_same|]. split.
  - intros q Hq. by apply sendToQueue_other.
  - apply set_eq. intros q. rewrite !elem_of_dom.
    destruct (decide (q = "image-uploaded"%string)) as [->|Hq].
    + rewrite sendToQueue_same. by rewrite fmap_is_Some.
    + by rewrite sendToQueue_other.
Qed.

Lemma upload_event_goes_to_the_named_queue_witness :
  queues
    (messageChannel
       (snd (post_upload Samples.env_up (Some Samples.cat_png)
               MoreSamples.world_with_named_queue)))
    !! "image-uploaded"%string
  = Some [announcement Samples.env_up Samples.cat_png].
Proof.
  destruct (upload_event_goes_to_the_named_queue Samples.env_up Samples.cat_png
              MoreSamples.world_with_named_queue
              (snd (post_upload Samples.env_up (Some Samples.cat_png)
                      MoreSamples.world_with_named_queue)))
    as (-> & _).
  - vm_compute. reflexivity.
  - vm_compute. reflexivity.
Defined.

End ChannelMore.

(** ** More on storage names and display URLs *)
Section NamesMore.

Import Js Path.

Implicit Types (env : Env) (part : Part).

(** X16. Two uploads get the same storage name exactly when they read the
    same millisecond and their original names have the same extension; the
    rest of the original name plays no part. *)
Theorem storage_names_collide_iff env1 env2 originalname1 originalname2 :
  storage_filename env1 originalname1 = storage_filename env2 originalname2
  ↔ now env1 = now env2 ∧ extname originalname1 = extname originalname2.
Proof.
  unfold storage_filename. split; [|by intros [-> ->]].
  intros Heq.
  destruct (pretty_N_plain (now env1)) as [Hp1 _].
  destruct (pretty_N_plain (now env2)) as [Hp2 _].
  apply plain_not_dot in Hp1, Hp2.
  apply (f_equal chars) in Heq. rewrite !chars_app in Heq.
  destruct (extname_shape originalname1) as [E1|(a1 & r1 & t1 & _ & E1 & _)];
    destruct (extname_shape originalname2) as [E2|(a2 & r2 & t2 & _ & E2 & _)];
    rewrite E1, E2 in *.
  - rewrite !app_nil_r in Heq. apply chars_inj, (inj pretty) in Heq.
    by split.
  - exfalso. apply Hp1. rewrite app_nil_r in Heq. rewrite Heq.
    apply elem_of_app. right. by left.
  - exfalso. apply Hp2. rewrite app_nil_r in Heq. rewrite <- Heq.
    apply elem_of_app. right. by left.
  - unfold chars in Heq at 2 4. cbn [list_ascii_of_string] in Heq.
    apply first_occurrence in Heq as [Hd Hr]; [|done|done].
    apply chars_inj, (inj pretty) in Hd. split; [done|].
    f_equal. by apply chars_inj.
Qed.

(** X17. The storage name never has a slash in it, whatever the original
    name of the client, and it has the extension of the original name. *)
Theorem storage_name_is_a_plain_file_name env originalname :
  (CHAR_FORWARD_SLASH ∉ chars (storage_filename env originalname))
  ∧ extname (storage_filename env originalname) = extname originalname.
Proof.
  split; [|apply extname_storage_filename].
  unfold storage_filename. rewrite chars_app.
  destruct (pretty_N_plain (now env)) as [Hp _].
  intros [Hin|Hin]%elem_of_app.
  - by apply (plain_not_slash _ Hp).
  - destruct (extname_shape originalname)
      as [E|(a & r & t & _ & E & Hr & _)]; rewrite E in Hin.
    + by apply elem_of_nil in Hin.
    + unfold chars in Hin. cbn [list_ascii_of_string] in Hin.
      apply elem_of_cons in Hin as [?|Hin]; [done|].
      rewrite list_ascii_of_string_of_list_ascii in Hin.
      by apply (plain_not_slash _ Hr).
Qed.

(** X18. An original name without slashes whose extension is empty (no
    dot in it, or only a leading one) is stored under the bare clock
    reading and is embedded whole in the display URL. *)
Theorem name_without_extension env part :
  extname (part_originalname part) = ""%string →
  CHAR_FORWARD_SLASH ∉ chars (part_originalname part) →
  storage_filename env (part_originalname part) = pretty (now env)
  ∧ display_url env part
    = ("https://www." +:+ part_originalname part +:+ ".com")%string.
Proof.
  intros Hext Hns. split.
  - unfold storage_filename. rewrite Hext. apply append_empty_r.
  - rewrite display_url_original, Hext. by rewrite basename_no_suffix.
Qed.

Lemma name_without_extension_witness :
  extname ".env" = ""%string
  ∧ display_url Samples.env_up (MkPart ".env" "SECRET=1")
    = "https://www..env.com"%string.
Proof.
  split; [reflexivity|].
  apply (name_without_extension Samples.env_up (MkPart ".env" "SECRET=1")).
  - reflexivity.
  - cbn. rewrite !elem_of_cons, elem_of_nil.
    intros [?|[?|[?|[?|[]]]]]; discriminate.
Defined.

End NamesMore.

(** ** The entry point *)
Section Entry.

Import Startup.

Lemma falsy_false v : falsy v = false ↔ ∃ s, v = Some s ∧ s ≠ ""%string.
Proof.
  destruct v as [s|]; simpl.
  - rewrite bool_decide_eq_false. split.
    + intros Hne. by exists s.
    + by intros (s' & [= <-] & Hne).
  - split; [discriminate|]. by intros (s & [=] & _).
Qed.

(** X19. [main] calls [startMicroservice] exactly when the four variables
    are set to non-empty strings, and then with the database host, the
    database name, the broker host and the port in this order of
    arguments. *)
Theorem main_starts_iff process_env dbHost dbName rabbitHost port :
  main process_env = Start dbHost dbName rabbitHost port
  ↔ (process_env !! "PORT"%string = Some port ∧ port ≠ ""%string)
    ∧ (process_env !! "DBHOST"%string = Some dbHost ∧ dbHost ≠ ""%string)
    ∧ (process_env !! "DBNAME"%string = Some dbName ∧ dbName ≠ ""%string)
    ∧ (process_env !! "RABBIT"%string = Some rabbitHost
       ∧ rabbitHost ≠ ""%string).
Proof.
  unfold main.
  destruct (falsy (process_env !! "PORT"%string)) eqn:E1.
  { split; [discriminate|]. intros ((H & Hne) & _).
    rewrite H in E1. simpl in E1. by rewrite bool_decide_eq_false_2 in E1. }
  destruct (falsy (process_env !! "DBHOST"%string)) eqn:E2.
  { split; [discriminate|]. intros (_ & (H & Hne) & _).
    rewrite H in E2. simpl in E2. by rewrite bool_decide_eq_false_2 in E2. }
  destruct (falsy (process_env !! "DBNAME"%string)) eqn:E3.
  { split; [discriminate|]. intros (_ & _ & (H & Hne) & _).
    rewrite H in E3. simpl in E3. by rewrite bool_decide_eq_false_2 in E3. }
  destruct (falsy (process_env !! "RABBIT"%string)) eqn:E4.
  { split; [discriminate|]. intros (_ & _ & _ & (H & Hne)).
    rewrite H in E4. simpl in E4. by rewrite bool_decide_eq_false_2 in E4. }
  apply falsy_false in E1 as (p & -> & ?), E2 as (h & -> & ?),
    E3 as (n & -> & ?), E4 as (r & -> & ?).
  simpl. split.
  - by intros [= <- <- <- <-].
  - by intros (([= ->] & _) & ([= ->] & _) & ([= ->] & _) & ([= ->] & _)).
Qed.

End Entry.

(** ** What the handlers leave alone *)
Section Frame.

Import Js.

Implicit Types (env : Env) (w : World) (part : Part) (msg : Message).

Lemma post_upload_store env (file : option Part) w :
  imageCollection (snd (post_upload env file w)) = imageCollection w
  ∨ ∃ part, file = Some part
            ∧ imageCollection (snd (post_upload env file w))
              = imageCollection w ++ [record env part].
Proof.
  destruct file as [part|]; [|by left].
  destruct (reachable env) eqn:Hup.
  - destruct (existsb (has_id (generatedId env)) (imageCollection w)) eqn:Hex.
    + destruct (post_upload_throws env part w) as [f ->]; [|by left].
      right. intros H%absent_existsb. congruence.
    + apply absent_existsb in Hex.
      rewrite (post_upload_success _ _ _ Hup Hex). right. by exists part.
  - destruct (post_upload_throws env part w) as [f ->]; by left.
Qed.

(** X21. The store only grows: every request and every delivery leaves the
    records that were there as they were and in their order, and adds at
    most one record after them. *)
Theorem store_is_append_only env id (file : option Part) msg w :
  imageCollection (snd (get_images env w)) = imageCollection w
  ∧ imageCollection (snd (get_image env id w)) = imageCollection w
  ∧ (∃ added, imageCollection (snd (post_upload env file w))
              = imageCollection w ++ added ∧ (length added ≤ 1)%nat)
  ∧ (∃ added, imageCollection (snd (consumeImageUploadedMessage env msg w))
              = imageCollection w ++ added ∧ (length added ≤ 1)%nat).
Proof.
  split; [apply get_images_store|]. split; [apply get_image_store|]. split.
  - destruct (post_upload_store env file w) as [->|(part & _ & ->)].
    + exists []. rewrite app_nil_r. split; [done|simpl; lia].
    + eexists [_]. split; [done|simpl; lia].
  - destruct (consume_cases env msg w)
      as [(?&?&?&?&doc&coll&_&_&Hins&->)|(e & -> & _)].
    + apply insertOne_inr in Hins as (_ & _ & _ & _ & ->).
      exists [doc]. split; [done|simpl; lia].
    + exists []. rewrite app_nil_r. split; [done|simpl; lia].
Qed.

(** X22. An upload writes one file and touches no other: whatever its
    outcome, every name of the upload directory other than its storage name
    holds what it held. *)
Theorem upload_touches_one_file env part w name :
  name ≠ storage_filename env (part_originalname part) →
  uploadDir (snd (post_upload env (Some part) w)) !! name
  = uploadDir w !! name.
Proof.
  intros Hne.
  unfold post_upload, upload_single, upload_route. unfold_eff.
  cbn [originalname filename imageCollection uploadDir messageChannel trace].
  destruct (insertOne _ _ _ _) as [f|[[doc oid] coll]]; cbn;
    by rewrite lookup_insert_ne.
Qed.

Lemma upload_touches_one_file_witness :
  uploadDir
    (snd (post_upload Samples.env_same_ms (Some (MkPart "dog.jpg" "woof"))
            (snd (post_upload Samples.env_up (Some Samples.cat_png)
                    empty_world))))
    !! "1700000000000.png"%string
  = uploadDir (snd (post_upload Samples.env_up (Some Samples.cat_png)
                      empty_world))
      !! "1700000000000.png"%string.
Proof.
  apply (upload_touches_one_file Samples.env_same_ms
           (MkPart "dog.jpg" "woof")).
  discriminate.
Defined.

(** X23. The consumer never publishes and never answers anybody, and it
    leaves the upload directory alone: a delivered event is not sent on. *)
Theorem consumer_sends_nothing_on env msg w :
  publications (trace (snd (consumeImageUploadedMessage env msg w)))
  = publications (trace w)
  ∧ responses (trace (snd (consumeImageUploadedMessage env msg w)))
    = responses (trace w)
  ∧ uploadDir (snd (consumeImageUploadedMessage env msg w)) = uploadDir w
  ∧ queues (messageChannel (snd (consumeImageUploadedMessage env msg w)))
    = queues (messageChannel w).
Proof.
  destruct (consume_cases env msg w)
    as [(?&?&?&?&doc&coll&_&_&_&->)|(e & -> & _)]; [|done].
  cbn [snd trace uploadDir messageChannel]. unfold publications, responses.
  rewrite !omap_app. cbn. by rewrite !app_nil_r.
Qed.

(** X24. The [imageId] an upload publishes for a record is 24 hexadecimal
    digits, and the identifier constructor, as the consumer and
    [GET /image] call it, turns it back into the [_id] of the record. *)
Theorem published_id_round_trip generated id :
  String.length id = 12%nat →
  String.length (toHexString id) = 24%nat
  ∧ checkForHexRegExp (toHexString id) = true
  ∧ new_ObjectId generated (toJSON id) = Some id
  ∧ new_ObjectId generated (query_value (Some (toHexString id))) = Some id.
Proof.
  intros Hlen.
  assert (String.length (toHexString id) = 24%nat) as H24
    by (rewrite length_toHexString; lia).
  split; [done|]. split.
  - unfold checkForHexRegExp. by rewrite H24, toHexString_is_hex.
  - split; by apply new_ObjectId_toJSON.
Qed.

Lemma published_id_round_trip_witness :
  String.length "abcdefghijkl" = 12%nat
  ∧ new_ObjectId "" (toJSON "abcdefghijkl") = Some "abcdefghijkl"%string.
Proof.
  split; [reflexivity|].
  apply (published_id_round_trip "" "abcdefghijkl"). reflexivity.
Defined.

End Frame.

(** ** Deliveries *)
Section Deliveries.

Implicit Types (env : Env) (w : World) (part : Part) (msg : Message).

(** X4. [GET /image] answers 200 or 404 and nothing else: whatever the
    request, a response in the trace after the run that was not there
    before has one of these two statuses. *)
Theorem get_image_answers_200_or_404 env id w r :
  Responded r ∈ trace (snd (get_image env id w)) →
  Responded r ∉ trace w →
  status r = 200 ∨ status r = 404.
Proof.
  intros Hin Hnew.
  by destruct (get_image_never_400 env id w r Hin) as [?|?].
Qed.

Lemma get_image_answers_200_or_404_witness :
  Responded (MkResponse 404 StatusText)
  ∈ trace (snd (get_image Samples.env_up None empty_world))
  ∧ (Responded (MkResponse 404 StatusText) ∉ trace empty_world)
  ∧ (status (MkResponse 404 StatusText) = 200
     ∨ status (MkResponse 404 StatusText) = 404).
Proof.
  assert (Responded (MkResponse 404 StatusText)
          ∈ trace (snd (get_image Samples.env_up None empty_world))) as Hin
    by (cbn; by left).
  assert ((Responded (MkResponse 404 StatusText) ∉ trace empty_world)) as Hnew
    by (cbn; apply not_elem_of_nil).
  split; [exact Hin|]. split; [exact Hnew|].
  exact (get_image_answers_200_or_404 Samples.env_up None empty_world
           (MkResponse 404 StatusText) Hin Hnew).
Defined.

(** X20. An instance that hears the event of its own upload, or of an
    upload into the store it shares: the consumer builds the identifier of
    the record that is already there, the insert is refused with a
    duplicate key, nothing changes and the delivery is not acknowledged. *)
Theorem own_event_is_refused env env' part w w' tag :
  String.length (generatedId env) = 12%nat →
  reachable env' = true →
  post_upload env (Some part) w = (inr (), w') →
  consumeImageUploadedMessage env' (MkMessage tag (announcement env part)) w'
  = (inl (MongoError DuplicateKey), w')
  ∧ record env part ∈ imageCollection w'.
Proof.
  intros Hlen Hup' Hrun.
  split; [by apply (loopback_is_refused env env' part w)|].
  pose proof (post_upload_inr _ _ _ _ Hrun) as [Hup Hfresh].
  rewrite (post_upload_success _ _ _ Hup Hfresh) in Hrun.
  injection Hrun as <-. cbn [imageCollection].
  apply elem_of_app. right. by left.
Qed.

Lemma own_event_is_refused_witness :
  String.length (generatedId Samples.env_up) = 12%nat
  ∧ consumeImageUploadedMessage Samples.env_same_ms
      (MkMessage 1 (announcement Samples.env_up Samples.cat_png))
      (snd (post_upload Samples.env_up (Some Samples.cat_png) empty_world))
    = (inl (MongoError DuplicateKey),
       snd (post_upload Samples.env_up (Some Samples.cat_png) empty_world)).
Proof.
  split; [reflexivity|].
  apply (own_event_is_refused Samples.env_up Samples.env_same_ms
           Samples.cat_png empty_world); reflexivity.
Defined.

(** X25. A message the broker hands to the consumer: when the consumer
    throws, the store is as it was and the message is still among the
    unacknowledged ones of the channel; when it returns, one record has
    been added and no unacknowledged delivery carries the tag of the
    message. *)
Theorem delivery_is_settled_only_when_written env queue w msg b :
  deliver queue (messageChannel w) = Some (msg, b) →
  (∀ e w', on_delivery env queue w = (inl e, w') →
           imageCollection w' = imageCollection w
           ∧ msg ∈ unacked (messageChannel w'))
  ∧ (∀ w', on_delivery env queue w = (inr (), w') →
           (∃ doc, imageCollection w' = imageCollection w ++ [doc])
           ∧ ∀ m, m ∈ unacked (messageChannel w') →
                  deliveryTag m ≠ deliveryTag msg).
Proof.
  intros Hd. split.
  - intros e w' Hrun. split;
      [|by apply (failed_delivery_stays_unacked env queue w msg b e w')].
    unfold on_delivery in Hrun. rewrite Hd in Hrun.
    set (w0 := MkWorld _ _ _ _) in Hrun.
    destruct (consume_cases env msg w0)
      as [(?&?&?&?&?&?&_&_&_&Hok)|(e' & Hthrow & _)]; [congruence|].
    rewrite Hthrow in Hrun. by injection Hrun as _ <-.
  - intros w' Hrun. unfold on_delivery in Hrun. rewrite Hd in Hrun.
    set (w0 := MkWorld _ _ _ _) in Hrun. split.
    + destruct (consume_cases env msg w0)
        as [(?&?&?&?&doc&coll&_&_&Hins&Hok)|(e' & Hthrow & _)]; [|congruence].
      rewrite Hok in Hrun. injection Hrun as <-.
      apply insertOne_inr in Hins as (_ & _ & _ & _ & ->). by exists doc.
    + by apply (acked_delivery_is_settled env msg w0 w').
Qed.

Lemma delivery_is_settled_only_when_written_witness :
  MkMessage 1 (announcement Samples.env_up Samples.cat_png)
  ∈ unacked
      (messageChannel
         (snd (on_delivery Samples.env_down "image-uploaded"
                 (snd (post_upload Samples.env_up (Some Samples.cat_png)
                         MoreSamples.world_with_named_queue))))).
Proof.
  eapply (delivery_is_settled_only_when_written Samples.env_down
            "image-uploaded"
            (snd (post_upload Samples.env_up (Some Samples.cat_png)
                    MoreSamples.world_with_named_queue))
            (MkMessage 1 (announcement Samples.env_up Samples.cat_png))).
  - vm_compute. reflexivity.
  - vm_compute. reflexivity.
Defined.

End Deliveries.
